(** * art-for-daggerheart: the compendium-art hook of [scripts/init.js]

    A shallow embedding of the module's one source file and the proofs of
    its specified behaviour.  The script is plain JavaScript run by the
    host's event loop, so the embedding carries the pieces of the language
    the script leans on:

    - strings are sequences of UTF-16 code units;
    - values are the JSON-like data the host hands to the hook
      (undefined, null, booleans, numbers, strings, plain objects);
    - a statement either completes normally or throws;
    - a template literal converts each of its substitutions to a string
      before the call it is an argument of, and the conversion of an
      object can throw;
    - the regular expression of [buildPathsFromActorImg] is run by a small
      backtracking matcher with greedy quantifiers and numbered captures;
    - [encodeURIComponent] follows the language's Encode operation,
      unpaired surrogates included. *)

From Stdlib Require Import PrimFloat.
From Stdlib Require Import Ascii String.
From stdpp Require Import gmap strings list.

Set Default Proof Using "Type".
Set Warnings "-inexact-float,-register-all".

(* ===================================================================== *)
(** ** Strings and values *)
(* ===================================================================== *)

(** A JavaScript string: a finite sequence of 16-bit code units, each
    held as an [N] below [2^16]. *)
Abbreviation jsstring := (list N).

(** The code units of an ASCII literal of the source text. *)
Definition str (s : string) : jsstring :=
  map N_of_ascii (list_ascii_of_string s).

(** The values that reach the script: primitives and plain data objects
    (own enumerable properties, in order).  An array only reaches the
    script inside a parsed mapping file, where its keys alone are read:
    it is held as the object of its index keys. *)
Inductive value :=
| VUndefined
| VNull
| VBool (b : bool)
| VNum (x : float)
| VStr (s : jsstring)
| VObj (props : list (jsstring * value)).

(** What can be thrown on the paths the script takes. *)
Inductive js_error := TypeError | URIError | SyntaxError.

(** The completion of an expression or statement. *)
Inductive completion (A : Type) :=
| Normal (a : A)
| Throw (e : js_error).
Arguments Normal {A} a.
Arguments Throw {A} e.

Definition is_nullish (v : value) : bool :=
  match v with VUndefined | VNull => true | _ => false end.

(** ToBoolean. *)
Definition truthy (v : value) : bool :=
  match v with
  | VUndefined | VNull => false
  | VBool b => b
  | VNum x => negb (PrimFloat.eqb x 0%float || PrimFloat.is_nan x)
  | VStr s => negb (bool_decide (s = []))
  | VObj _ => true
  end.

(** [typeof v === "string"]. *)
Definition is_string (v : value) : bool :=
  match v with VStr _ => true | _ => false end.

(** [v === lit] for a string literal [lit]. *)
Definition strict_eq_str (v : value) (lit : jsstring) : bool :=
  match v with VStr s => bool_decide (s = lit) | _ => false end.

Fixpoint assoc (k : jsstring) (props : list (jsstring * value)) : value :=
  match props with
  | [] => VUndefined
  | (k', v) :: rest => if bool_decide (k' = k) then v else assoc k rest
  end.

(** [o?.k]: undefined on a nullish base, the own property otherwise.
    None of the keys the script reads (metadata, id, collection, actor,
    mapping, flags, compendiumArtMappings) is defined on a built-in
    prototype, so a primitive base yields undefined. *)
Definition opt_get (o : value) (k : string) : value :=
  match o with
  | VObj props => assoc (str k) props
  | _ => VUndefined
  end.

(** [a ?? b]. *)
Definition coalesce (a b : value) : value :=
  if is_nullish a then b else a.

(** The canonical decimal key of an array or string index. *)
Fixpoint uint_units (d : Decimal.uint) : jsstring :=
  match d with
  | Decimal.Nil => []
  | Decimal.D0 d => 48%N :: uint_units d
  | Decimal.D1 d => 49%N :: uint_units d
  | Decimal.D2 d => 50%N :: uint_units d
  | Decimal.D3 d => 51%N :: uint_units d
  | Decimal.D4 d => 52%N :: uint_units d
  | Decimal.D5 d => 53%N :: uint_units d
  | Decimal.D6 d => 54%N :: uint_units d
  | Decimal.D7 d => 55%N :: uint_units d
  | Decimal.D8 d => 56%N :: uint_units d
  | Decimal.D9 d => 57%N :: uint_units d
  end.

Definition index_key (i : nat) : jsstring := uint_units (Nat.to_uint i).

(** [Object.entries(v)] for a non-nullish [v]: the own enumerable
    properties of an object, the indexed units of a string, nothing for a
    boolean or a number.  The order of integer-like keys is not modelled;
    the script only folds the entries into a set. *)
Definition Object_entries (v : value) : completion (list (jsstring * value)) :=
  match v with
  | VUndefined | VNull => Throw TypeError
  | VBool _ | VNum _ => Normal []
  | VStr s => Normal (imap (fun i c => (index_key i, VStr [c])) s)
  | VObj props => Normal props
  end.

(** [Object.keys(v)]. *)
Definition Object_keys (v : value) : completion (list jsstring) :=
  match Object_entries v with
  | Normal es => Normal (map fst es)
  | Throw e => Throw e
  end.

(* ===================================================================== *)
(** ** Conversion to a string *)
(* ===================================================================== *)

(** Whether an object has an own property [k], whatever its value. *)
Fixpoint has_own (k : jsstring) (props : list (jsstring * value)) : bool :=
  match props with
  | [] => false
  | (k', _) :: rest => bool_decide (k' = k) || has_own k rest
  end.

(** What the host and the language provide and the model leaves open:
    [foundry?.utils?.Color?.from?.(raw)?.css] of line 217, and the
    decimal text of a number (Number::toString). *)
Record host := {
  Color_css : value -> value;
  Number_toString : float -> jsstring
}.

(** ToString, as a template literal and [String(v)] apply it.  An object
    is converted by its toString method, then by its valueOf method.  A
    plain object inherits both: the inherited toString gives
    [[object Object]].  An own property named toString hides the
    inherited method; no value of the model is callable, so the
    conversion goes on to valueOf (an own one is not callable either, the
    inherited one returns the object itself) and ends in a TypeError. *)
Definition ToString (h : host) (v : value) : completion jsstring :=
  match v with
  | VUndefined => Normal (str "undefined")
  | VNull => Normal (str "null")
  | VBool true => Normal (str "true")
  | VBool false => Normal (str "false")
  | VNum x => Normal (Number_toString h x)
  | VStr s => Normal s
  | VObj props =>
      if has_own (str "toString") props then Throw TypeError
      else Normal (str "[object Object]")
  end.

(** A template literal, given its substitutions in order: each is
    converted with ToString, and the first conversion that throws ends
    the evaluation.  The script only hands the resulting text to its
    debug helpers, so the text itself is not kept. *)
Fixpoint template (h : host) (substitutions : list value) : completion unit :=
  match substitutions with
  | [] => Normal tt
  | v :: rest =>
      match ToString h v with
      | Normal _ => template h rest
      | Throw e => Throw e
      end
  end.

(* ===================================================================== *)
(** ** Regular expressions *)
(* ===================================================================== *)

(** The fragment of the pattern language that the pattern of
    [buildPathsFromActorImg] uses: the two anchors, literal runs, the
    greedy star and plus over a character class, concatenation and
    numbered capturing groups. *)
Inductive regex :=
| Bol
| Eol
| Chars (l : jsstring)
| Star (cls : N -> bool)
| Plus (cls : N -> bool)
| Cat (r1 r2 : regex)
| Group (i : nat) (r : regex).

Definition captures := list (option jsstring).

(** A continuation receives the index reached, the input left and the
    captures so far. *)
Definition cont := nat -> jsstring -> captures -> option captures.

Fixpoint strip (l s : jsstring) : option jsstring :=
  match l, s with
  | [], _ => Some s
  | a :: l', b :: s' => if bool_decide (a = b) then strip l' s' else None
  | _ :: _, [] => None
  end.

(** Greedy repetition of a class: take as many units as possible, then
    give them back one at a time until the continuation succeeds. *)
Fixpoint greedy (cls : N -> bool) (k : nat -> jsstring -> option captures)
    (pos : nat) (s : jsstring) : option captures :=
  match s with
  | c :: s' =>
      if cls c then
        match greedy cls k (S pos) s' with
        | Some r => Some r
        | None => k pos s
        end
      else k pos s
  | [] => k pos []
  end.

Fixpoint run (r : regex) (k : cont) (pos : nat) (s : jsstring)
    (caps : captures) : option captures :=
  match r with
  | Bol => if Nat.eqb pos 0 then k pos s caps else None
  | Eol => match s with [] => k pos s caps | _ :: _ => None end
  | Chars l =>
      match strip l s with
      | Some rest => k (pos + length l) rest caps
      | None => None
      end
  | Star cls => greedy cls (fun p rest => k p rest caps) pos s
  | Plus cls =>
      match s with
      | c :: s' =>
          if cls c then greedy cls (fun p rest => k p rest caps) (S pos) s'
          else None
      | [] => None
      end
  | Cat r1 r2 => run r1 (fun p rest caps' => run r2 k p rest caps') pos s caps
  | Group i r' =>
      run r' (fun p rest caps' => k p rest (<[i := Some (take (p - pos) s)]> caps'))
        pos s caps
  end.

(** [re.exec(input)] for a pattern with [groups] capturing groups and no
    flags: the match is attempted at index 0, 1, ... until one succeeds;
    capture 0 is the whole match. *)
Fixpoint exec_from (re : regex) (groups : nat) (pos : nat) (s : jsstring)
    : option captures :=
  match run (Group 0 re) (fun _ _ caps => Some caps) pos s
          (replicate (S groups) None) with
  | Some m => Some m
  | None =>
      match s with
      | [] => None
      | _ :: s' => exec_from re groups (S pos) s'
      end
  end.

Definition exec (re : regex) (groups : nat) (input : jsstring) : option captures :=
  exec_from re groups 0 input.

(** Character classes of the pattern. *)
Definition is_line_terminator (c : N) : bool :=
  bool_decide (c = 10%N) || bool_decide (c = 13%N) ||
  bool_decide (c = 8232%N) || bool_decide (c = 8233%N).

(** [.] without the [s] flag. *)
Definition dot (c : N) : bool := negb (is_line_terminator c).

Definition SLASH : N := 47%N.
Definition DOT : N := 46%N.

(** [[^/]]. *)
Definition not_slash (c : N) : bool := negb (bool_decide (c = SLASH)).

(** [[^.\/]]. *)
Definition not_dot_slash (c : N) : bool :=
  negb (bool_decide (c = DOT) || bool_decide (c = SLASH)).

(** The pattern of line 84, node by node: start of input; group 1, any
    run of units other than line terminators; the literal /portraits/;
    group 2, one or more units other than a slash; group 3, a literal dot
    and one or more units that are neither a dot nor a slash; end of
    input. *)
Definition portraits_re : regex :=
  Cat Bol
   (Cat (Group 1 (Star dot))
    (Cat (Chars (str "/portraits/"))
     (Cat (Group 2 (Plus not_slash))
      (Cat (Group 3 (Cat (Chars (str ".")) (Plus not_dot_slash)))
           Eol)))).

(* ===================================================================== *)
(** ** encodeURIComponent *)
(* ===================================================================== *)

Definition in_range (lo hi c : N) : bool := (lo <=? c)%N && (c <=? hi)%N.

(** uriUnreserved: letters, digits and the marks [- _ . ! ~ * ' ( )]. *)
Definition uriUnreserved (c : N) : bool :=
  in_range 97 122 c || in_range 65 90 c || in_range 48 57 c ||
  bool_decide (c ∈ [45; 95; 46; 33; 126; 42; 39; 40; 41]%N).

Definition is_lead_surrogate (c : N) : bool := in_range 55296 56319 c.
Definition is_trail_surrogate (c : N) : bool := in_range 56320 57343 c.

Definition surrogate_pair_to_code_point (lead trail : N) : N :=
  ((lead - 55296) * 1024 + (trail - 56320) + 65536)%N.

(** The UTF-8 octets of a code point. *)
Definition utf8 (cp : N) : list N :=
  if (cp <? 128)%N then [cp]
  else if (cp <? 2048)%N then
    [N.lor 192 (N.shiftr cp 6); N.lor 128 (N.land cp 63)]
  else if (cp <? 65536)%N then
    [N.lor 224 (N.shiftr cp 12);
     N.lor 128 (N.land (N.shiftr cp 6) 63);
     N.lor 128 (N.land cp 63)]
  else
    [N.lor 240 (N.shiftr cp 18);
     N.lor 128 (N.land (N.shiftr cp 12) 63);
     N.lor 128 (N.land (N.shiftr cp 6) 63);
     N.lor 128 (N.land cp 63)].

Definition hex_digit (d : N) : N :=
  if (d <? 10)%N then (48 + d)%N else (55 + d)%N.

Definition PERCENT : N := 37%N.

(** One octet as [%XX], upper-case hexadecimal. *)
Definition pct (b : N) : jsstring :=
  [PERCENT; hex_digit (N.shiftr b 4); hex_digit (N.land b 15)].

Definition pct_all (octets : list N) : jsstring := concat (map pct octets).

(** Encode(string, uriUnreserved). *)
Fixpoint encodeURIComponent (s : jsstring) : completion jsstring :=
  match s with
  | [] => Normal []
  | c :: rest =>
      if uriUnreserved c then
        match encodeURIComponent rest with
        | Normal r => Normal (c :: r)
        | Throw e => Throw e
        end
      else if is_trail_surrogate c then Throw URIError
      else if is_lead_surrogate c then
        match rest with
        | d :: rest' =>
            if is_trail_surrogate d then
              match encodeURIComponent rest' with
              | Normal r => Normal (pct_all (utf8 (surrogate_pair_to_code_point c d)) ++ r)
              | Throw e => Throw e
              end
            else Throw URIError
        | [] => Throw URIError
        end
      else
        match encodeURIComponent rest with
        | Normal r => Normal (pct_all (utf8 c) ++ r)
        | Throw e => Throw e
        end
  end.

(* ===================================================================== *)
(** ** The path deriver *)
(* ===================================================================== *)

(** The object [buildPathsFromActorImg] returns; [{}] has every property
    undefined. *)
Record paths := {
  wildcardSrc : value;
  circleSrc : value;
  ext : value
}.

Definition no_paths : paths :=
  {| wildcardSrc := VUndefined; circleSrc := VUndefined; ext := VUndefined |}.

(** [m[i]] inside a template literal: an unmatched group prints as
    "undefined". *)
Definition capture (m : captures) (i : nat) : jsstring :=
  match m !! i with
  | Some (Some s) => s
  | _ => str "undefined"
  end.

Definition buildPathsFromActorImg (actorImg : jsstring) : completion paths :=
  match exec portraits_re 3 actorImg with
  | None => Normal no_paths
  | Some m =>
      let root := capture m 1 in
      let baseName := capture m 2 in
      let ext := capture m 3 in
      let tokensDir := root ++ str "/tokens" in
      let circleDir := root ++ str "/circle" in
      match encodeURIComponent baseName with
      | Throw e => Throw e
      | Normal encoded =>
          let wildcardSrc := tokensDir ++ str "/" ++ encoded ++ str "*" ++ ext in
          let circleSrc := circleDir ++ str "/" ++ baseName ++ ext in
          Normal {| wildcardSrc := VStr wildcardSrc;
                    circleSrc := VStr circleSrc;
                    ext := VStr ext |}
      end
  end.

(* ===================================================================== *)
(** ** Constants and mode predicates *)
(* ===================================================================== *)

Definition MODULE_ID : jsstring := str "art-for-daggerheart".

Module TOKEN_MODE.
Definition WILDCARDS : jsstring := str "wildcards".
Definition WILDCARDS_RINGS : jsstring := str "wildcardsRings".
Definition CIRCLE : jsstring := str "circle".
Definition CIRCLE_RINGS : jsstring := str "circleRings".
Definition PORTRAIT_RINGS : jsstring := str "portraitRings".
End TOKEN_MODE.

Definition isWildcardMode (m : value) : bool :=
  strict_eq_str m TOKEN_MODE.WILDCARDS || strict_eq_str m TOKEN_MODE.WILDCARDS_RINGS.

Definition hasRings (m : value) : bool :=
  strict_eq_str m TOKEN_MODE.WILDCARDS_RINGS ||
  strict_eq_str m TOKEN_MODE.CIRCLE_RINGS ||
  strict_eq_str m TOKEN_MODE.PORTRAIT_RINGS.

(* ===================================================================== *)
(** ** A state-and-exception monad *)
(* ===================================================================== *)

(** A statement run against a mutable object of type [S]: the object as
    left behind, and how the statement completed.  What was written
    before a throw stays written. *)
Definition M (S A : Type) : Type := S -> S * completion A.

Definition ret {S A} (a : A) : M S A := fun s => (s, Normal a).

Definition bind {S A B} (m : M S A) (f : A -> M S B) : M S B :=
  fun s =>
    match m s with
    | (s', Normal a) => f a s'
    | (s', Throw e) => (s', Throw e)
    end.

Definition lift {S A} (c : completion A) : M S A := fun s => (s, c).

(** Reading the object. *)
Definition get {S} : M S S := fun s => (s, Normal s).

Definition modify {S} (f : S -> S) : M S unit := fun s => (f s, Normal tt).

(** [try { body } catch (error) { handler }]. *)
Definition try_catch {S A} (body : M S A) (handler : js_error -> M S A) : M S A :=
  fun s =>
    match body s with
    | (s', Normal a) => (s', Normal a)
    | (s', Throw e) => handler e s'
    end.

(** [for (const x of xs) body]. *)
Fixpoint for_of {S A} (xs : list A) (body : A -> M S unit) : M S unit :=
  match xs with
  | [] => ret tt
  | x :: rest => bind (body x) (fun _ => for_of rest body)
  end.

Declare Scope js_scope.
Delimit Scope js_scope with js.
Notation "'let*' x := m 'in' k" := (bind m (fun x => k))
  (at level 10, x name, m at level 100, k at level 200) : js_scope.
Notation "m >> k" := (bind m (fun _ => k))
  (at level 90, right associativity) : js_scope.
Open Scope js_scope.

(* ===================================================================== *)
(** ** Settings *)
(* ===================================================================== *)

Module Setting.

Inductive field_type := Boolean | String | Number | ColorField.

(** The data object of one [game.settings.register] call.  A property the
    call leaves out is [None]; [onChange] records whether a callback is
    given. *)
Record t := {
  name : jsstring;
  hint : jsstring;
  scope : jsstring;
  config : bool;
  type : field_type;
  choices : option (list (jsstring * jsstring));
  default : value;
  requiresReload : option bool;
  onChange : bool
}.

End Setting.

(** One call [game.settings.register(namespace, key, data)]. *)
Record registration := {
  reg_namespace : jsstring;
  reg_key : jsstring;
  reg_data : Setting.t
}.

Definition settings_register (ns key : jsstring) (data : Setting.t)
    : M (list registration) unit :=
  modify (fun reg =>
    reg ++ [{| reg_namespace := ns; reg_key := key; reg_data := data |}]).

Definition registerSettings : M (list registration) unit :=
  settings_register MODULE_ID (str "tokenAutoRotate")
    {| Setting.name := str "Token Auto Rotate";
       Setting.hint := str "If enabled, core token auto-rotation will be turned on for this world.";
       Setting.scope := str "world";
       Setting.config := true;
       Setting.type := Setting.Boolean;
       Setting.choices := None;
       Setting.default := VBool false;
       Setting.requiresReload := None;
       Setting.onChange := false |} >>
  settings_register MODULE_ID (str "debugLogging")
    {| Setting.name := str "Debug Logging";
       Setting.hint := str "If enabled, the module will print detailed diagnostics to the console.";
       Setting.scope := str "world";
       Setting.config := true;
       Setting.type := Setting.Boolean;
       Setting.choices := None;
       Setting.default := VBool false;
       Setting.requiresReload := None;
       Setting.onChange := false |} >>
  settings_register MODULE_ID (str "ringColor")
    {| Setting.name := str "Token Ring Color";
       Setting.hint := str "Choose the color for token rings when ring modes are enabled.";
       Setting.scope := str "world";
       Setting.config := true;
       Setting.type := Setting.ColorField;
       Setting.choices := None;
       Setting.default := VStr (str "#8f0000");
       Setting.requiresReload := Some true;
       Setting.onChange := true |} >>
  settings_register MODULE_ID (str "tokenMode")
    {| Setting.name := str "Token Mode";
       Setting.hint := str "Select token source and style.";
       Setting.scope := str "world";
       Setting.config := true;
       Setting.type := Setting.String;
       Setting.choices := Some
         [(TOKEN_MODE.WILDCARDS, str "Wildcards Only");
          (TOKEN_MODE.WILDCARDS_RINGS, str "Wildcards + Rings");
          (TOKEN_MODE.CIRCLE, str "Circle Only");
          (TOKEN_MODE.CIRCLE_RINGS, str "Circle + Rings");
          (TOKEN_MODE.PORTRAIT_RINGS, str "Portrait + Rings")];
       Setting.default := VStr TOKEN_MODE.WILDCARDS_RINGS;
       Setting.requiresReload := Some true;
       Setting.onChange := true |} >>
  settings_register MODULE_ID (str "tokenWidth")
    {| Setting.name := str "Token Width";
       Setting.hint := str "Set the width for tokens (1.0 = normal size).";
       Setting.scope := str "world";
       Setting.config := true;
       Setting.type := Setting.Number;
       Setting.choices := None;
       Setting.default := VNum 1.0;
       Setting.requiresReload := Some true;
       Setting.onChange := true |} >>
  settings_register MODULE_ID (str "tokenHeight")
    {| Setting.name := str "Token Height";
       Setting.hint := str "Set the height for tokens (1.0 = normal size).";
       Setting.scope := str "world";
       Setting.config := true;
       Setting.type := Setting.Number;
       Setting.choices := None;
       Setting.default := VNum 1.0;
       Setting.requiresReload := Some true;
       Setting.onChange := true |} >>
  settings_register MODULE_ID (str "imageFitMode")
    {| Setting.name := str "Image Fit Mode";
       Setting.hint := str "Choose how the token image should fit within the token frame.";
       Setting.scope := str "world";
       Setting.config := true;
       Setting.type := Setting.String;
       Setting.choices := Some
         [(str "fill", str "Fill");
          (str "contain", str "Contain");
          (str "cover", str "Cover");
          (str "width", str "Full Width");
          (str "height", str "Full Height")];
       Setting.default := VStr (str "contain");
       Setting.requiresReload := Some true;
       Setting.onChange := true |}.

(** The options the module registers, starting from an empty registry. *)
Definition registered : list registration := fst (registerSettings []).

(** The values [game.settings.get(MODULE_ID, key)] returns during one
    invocation of the hook. *)
Record settings := {
  tokenAutoRotate : value;
  debugLogging : value;
  ringColor : value;
  tokenMode : value;
  tokenWidth : value;
  tokenHeight : value;
  imageFitMode : value
}.

(* ===================================================================== *)
(** ** The mapping cache and its preloader *)
(* ===================================================================== *)

(** The two module-level variables.  The set only ever receives the
    strings [Object.keys] returns. *)
Record module_state := {
  SUPPORTED_PACKS : gset jsstring;
  MAPPING_DATA_LOADED : bool
}.

Definition initial_state : module_state :=
  {| SUPPORTED_PACKS := ∅; MAPPING_DATA_LOADED := false |}.

(** What [await fetch(url)] resolves to: [ok], [status], and what
    [await response.json()] gives (a parsed value, or a rejection on a
    body that is not JSON). *)
Record response := {
  ok : bool;
  status : N;
  json : completion value
}.

(** The network as seen during one preload: for each request, a response
    or a rejection. *)
Definition network := value -> completion response.

(** [a || b]. *)
Definition logical_or (a b : value) : value :=
  if truthy a then a else b.

Definition packs_clear : M module_state unit :=
  modify (fun st =>
    {| SUPPORTED_PACKS := ∅; MAPPING_DATA_LOADED := MAPPING_DATA_LOADED st |}).

Definition packs_add (packId : jsstring) : M module_state unit :=
  modify (fun st =>
    {| SUPPORTED_PACKS := {[ packId ]} ∪ SUPPORTED_PACKS st;
       MAPPING_DATA_LOADED := MAPPING_DATA_LOADED st |}).

Definition set_loaded (b : bool) : M module_state unit :=
  modify (fun st =>
    {| SUPPORTED_PACKS := SUPPORTED_PACKS st; MAPPING_DATA_LOADED := b |}).

(** The body of the loop over the configured systems (lines 41-59).  Its
    debug calls sit inside the try block or its handler and print
    strings and the status of the response, whose conversion cannot
    throw; they are left out. *)
Definition load_mapping (fetch : network) (config : value) : M module_state unit :=
  let mapping := opt_get config "mapping" in
  if truthy mapping && is_string mapping then
    try_catch
      (let* response := lift (fetch mapping) in
       if ok response then
         let* mappingData := lift (json response) in
         let* packIds := lift (Object_keys mappingData) in
         for_of packIds packs_add
       else ret tt)
      (fun _ => ret tt)
  else ret tt.

(** [preloadMappingData], given what [game.modules.get(MODULE_ID)]
    returns.  The debug calls of lines 38 and 63 print a constant and
    the joined strings of the set, and are left out. *)
Definition preloadMappingData (fetch : network) (module : value)
    : M module_state unit :=
  let compendiumMappings :=
    logical_or (opt_get (opt_get module "flags") "compendiumArtMappings") (VObj []) in
  packs_clear >>
  let* entries := lift (Object_entries compendiumMappings) in
  for_of entries (fun entry => load_mapping fetch (snd entry)) >>
  set_loaded true.

(** [SUPPORTED_PACKS.has(v)]: only a string can be a member. *)
Definition Set_has (s : gset jsstring) (v : value) : bool :=
  match v with
  | VStr k => bool_decide (k ∈ s)
  | _ => false
  end.

(** [debugLog] and [debugWarn] (lines 96 and 98) called with one
    template literal.  The literal is an argument: it is evaluated
    before the call, whatever [debugOn()] answers, and a conversion that
    throws ends the caller.  The helper then prints or not by the
    debugLogging setting; the console is not part of the model. *)
Definition debugLog {S} (h : host) (substitutions : list value) : M S unit :=
  lift (template h substitutions).

Definition debugWarn {S} (h : host) (substitutions : list value) : M S unit :=
  lift (template h substitutions).

(** Lines 71-80; the literals of lines 73 and 78 hold the identifier
    (and the boolean found). *)
Definition isPackSupported {S} (h : host) (st : module_state) (packId : value)
    : M S bool :=
  if negb (MAPPING_DATA_LOADED st) then
    debugWarn h [packId] >>
    ret false
  else
    let supported := Set_has (SUPPORTED_PACKS st) packId in
    debugLog h [packId; VBool supported] >>
    ret supported.

(* ===================================================================== *)
(** ** The document under art *)
(* ===================================================================== *)

(** The part of the host's document data the hook reads and writes.  A
    nested object that is missing (or null) is [None]; a leaf that is
    missing is [VUndefined]. *)
Record Texture := {
  src : value;
  fit : value
}.

Record RingColors := {
  colors_ring : value;
  colors_background : value
}.

Record RingSubject := {
  subject_scale : value;
  subject_texture : value
}.

Record Ring := {
  enabled : value;
  effects : value;
  colors : option RingColors;
  subject : option RingSubject
}.

Record PrototypeToken := {
  texture : option Texture;
  ring : option Ring;
  randomImg : value;
  width : value;
  height : value
}.

Record Source := {
  name : value;
  img : value;
  prototypeToken : option PrototypeToken
}.

(** The object literals of lines 220-222. *)
Definition empty_token : PrototypeToken :=
  {| texture := None; ring := None; randomImg := VUndefined;
     width := VUndefined; height := VUndefined |}.

Definition empty_texture : Texture := {| src := VUndefined; fit := VUndefined |}.

Definition empty_colors : RingColors :=
  {| colors_ring := VUndefined; colors_background := VUndefined |}.

Definition empty_subject : RingSubject :=
  {| subject_scale := VUndefined; subject_texture := VUndefined |}.

Definition default_ring : Ring :=
  {| enabled := VUndefined; effects := VUndefined;
     colors := Some empty_colors; subject := Some empty_subject |}.

(** Access to a nested object: a property of a missing object cannot be
    read or written, the statement throws a TypeError. *)
Definition in_token {A} (f : M PrototypeToken A) : M Source A :=
  fun s =>
    match prototypeToken s with
    | None => (s, Throw TypeError)
    | Some pt =>
        let (pt', c) := f pt in
        ({| name := name s; img := img s; prototypeToken := Some pt' |}, c)
    end.

Definition in_texture {A} (f : M Texture A) : M Source A :=
  in_token (fun pt =>
    match texture pt with
    | None => (pt, Throw TypeError)
    | Some t =>
        let (t', c) := f t in
        ({| texture := Some t'; ring := ring pt; randomImg := randomImg pt;
            width := width pt; height := height pt |}, c)
    end).

Definition in_ring {A} (f : M Ring A) : M Source A :=
  in_token (fun pt =>
    match ring pt with
    | None => (pt, Throw TypeError)
    | Some r =>
        let (r', c) := f r in
        ({| texture := texture pt; ring := Some r'; randomImg := randomImg pt;
            width := width pt; height := height pt |}, c)
    end).

Definition in_colors {A} (f : M RingColors A) : M Source A :=
  in_ring (fun r =>
    match colors r with
    | None => (r, Throw TypeError)
    | Some c =>
        let (c', x) := f c in
        ({| enabled := enabled r; effects := effects r;
            colors := Some c'; subject := subject r |}, x)
    end).

Definition in_subject {A} (f : M RingSubject A) : M Source A :=
  in_ring (fun r =>
    match subject r with
    | None => (r, Throw TypeError)
    | Some sj =>
        let (sj', x) := f sj in
        ({| enabled := enabled r; effects := effects r;
            colors := colors r; subject := Some sj' |}, x)
    end).

(** The assignments of the hook, one definition per left-hand side. *)
Definition set_img (v : value) : M Source unit :=
  modify (fun s => {| name := name s; img := v; prototypeToken := prototypeToken s |}).

Definition set_texture_src (v : value) : M Source unit :=
  in_texture (modify (fun t => {| src := v; fit := fit t |})).

Definition set_texture_fit (v : value) : M Source unit :=
  in_texture (modify (fun t => {| src := src t; fit := v |})).

Definition set_randomImg (v : value) : M Source unit :=
  in_token (modify (fun pt =>
    {| texture := texture pt; ring := ring pt; randomImg := v;
       width := width pt; height := height pt |})).

Definition set_width (v : value) : M Source unit :=
  in_token (modify (fun pt =>
    {| texture := texture pt; ring := ring pt; randomImg := randomImg pt;
       width := v; height := height pt |})).

Definition set_height (v : value) : M Source unit :=
  in_token (modify (fun pt =>
    {| texture := texture pt; ring := ring pt; randomImg := randomImg pt;
       width := width pt; height := v |})).

Definition set_ring_enabled (v : value) : M Source unit :=
  in_ring (modify (fun r =>
    {| enabled := v; effects := effects r; colors := colors r; subject := subject r |})).

Definition set_ring_effects (v : value) : M Source unit :=
  in_ring (modify (fun r =>
    {| enabled := enabled r; effects := v; colors := colors r; subject := subject r |})).

Definition set_colors_ring (v : value) : M Source unit :=
  in_colors (modify (fun c =>
    {| colors_ring := v; colors_background := colors_background c |})).

Definition set_colors_background (v : value) : M Source unit :=
  in_colors (modify (fun c =>
    {| colors_ring := colors_ring c; colors_background := v |})).

Definition set_subject_scale (v : value) : M Source unit :=
  in_subject (modify (fun sj =>
    {| subject_scale := v; subject_texture := subject_texture sj |})).

Definition set_subject_texture (v : value) : M Source unit :=
  in_subject (modify (fun sj =>
    {| subject_scale := subject_scale sj; subject_texture := v |})).

(** [source.prototypeToken ??= {}] and the two lines after it. *)
Definition ensure_token : M Source unit :=
  modify (fun s =>
    match prototypeToken s with
    | Some _ => s
    | None => {| name := name s; img := img s; prototypeToken := Some empty_token |}
    end).

Definition ensure_texture : M Source unit :=
  in_token (modify (fun pt =>
    match texture pt with
    | Some _ => pt
    | None =>
        {| texture := Some empty_texture; ring := ring pt; randomImg := randomImg pt;
           width := width pt; height := height pt |}
    end)).

Definition ensure_ring : M Source unit :=
  in_token (modify (fun pt =>
    match ring pt with
    | Some _ => pt
    | None =>
        {| texture := texture pt; ring := Some default_ring; randomImg := randomImg pt;
           width := width pt; height := height pt |}
    end)).

(* ===================================================================== *)
(** ** The art-application handler *)
(* ===================================================================== *)

(** [pack?.metadata?.id ?? pack?.collection]. *)
Definition packIdOf (pack : value) : value :=
  coalesce (opt_get (opt_get pack "metadata") "id") (opt_get pack "collection").

(** Lines 225-253.  The debug calls of the four branches print
    [art.actor] and the derived path, strings in every branch, and are
    left out. *)
Definition apply_portrait (cfg : settings) (art : value) : M Source unit :=
  let mode := tokenMode cfg in
  match opt_get art "actor" with
  | VStr actor =>
      if truthy (VStr actor) then
        set_img (VStr actor) >>
        let* p := lift (buildPathsFromActorImg actor) in
        (if strict_eq_str mode TOKEN_MODE.PORTRAIT_RINGS then
           set_texture_src (VStr actor) >>
           set_randomImg (VBool false)
         else if isWildcardMode mode && truthy (wildcardSrc p) then
           set_texture_src (wildcardSrc p) >>
           set_randomImg (VBool true)
         else if truthy (circleSrc p) then
           set_texture_src (circleSrc p) >>
           set_randomImg (VBool false)
         else
           set_texture_src (VStr actor) >>
           set_randomImg (VBool false)) >>
        set_width (tokenWidth cfg) >>
        set_height (tokenHeight cfg) >>
        set_texture_fit (imageFitMode cfg)
      else ret tt
  | _ => ret tt
  end.

(** Lines 255-262. *)
Definition apply_ring (mode ringColor : value) : M Source unit :=
  let ringEnabled := hasRings mode in
  set_ring_enabled (VBool ringEnabled) >>
  set_ring_effects (VNum 1) >>
  set_colors_ring (if ringEnabled then ringColor else VNull) >>
  set_colors_background VNull >>
  set_subject_scale (if ringEnabled then VNum 0.8 else VNum 1.0) >>
  set_subject_texture VNull.

(** The normalised ring colour of lines 216-217: [String(rawRing)] is
    only evaluated when the host gives no CSS form. *)
Definition ringColorOf (h : host) (cfg : settings) : completion value :=
  let rawRing := ringColor cfg in
  let css := Color_css h rawRing in
  if is_nullish css then
    match ToString h rawRing with
    | Normal text => Normal (VStr text)
    | Throw e => Throw e
    end
  else Normal css.

(** Lines 219-262: the writes of the callback, given the normalised
    ring colour.  The debug call of lines 264-276 reads the document
    through optional chaining into an object literal, converts nothing,
    and is left out. *)
Definition apply_art (cfg : settings) (art ringColor : value) : M Source unit :=
  ensure_token >>
  ensure_texture >>
  ensure_ring >>
  apply_portrait cfg art >>
  apply_ring (tokenMode cfg) ringColor.

(** Lines 208-262: what the callback does once past its two early
    returns.  The literal of line 208 holds the identifier and
    [source.name]. *)
Definition process (h : host) (cfg : settings) (packId art : value) : M Source unit :=
  (let* source := get in
   debugLog h [packId; name source]) >>
  let* ringColor := lift (ringColorOf h cfg) in
  apply_art cfg art ringColor.

(** The callback of [Hooks.on("applyCompendiumArt", ...)].  The
    literals of lines 199 and 204 hold the identifier. *)
Definition applyCompendiumArt (h : host) (st : module_state) (cfg : settings)
    (pack art : value) : M Source unit :=
  let packId := packIdOf pack in
  if negb (MAPPING_DATA_LOADED st) then
    debugWarn h [packId]
  else
    let* supported := isPackSupported h st packId in
    if negb supported then
      debugLog h [packId]
    else
      process h cfg packId art.

(* ===================================================================== *)
(** ** Vocabulary of the statements *)
(* ===================================================================== *)

(** *** Paths *)

(** The pieces of a path the pattern accepts: a root without line
    terminators, a non-empty base name without a slash, and a non-empty
    extension without a dot or a slash. *)
Definition portrait_parts (root name e : jsstring) : Prop :=
  forallb dot root = true ∧
  name ≠ [] ∧ forallb not_slash name = true ∧
  e ≠ [] ∧ forallb not_dot_slash e = true.

(** [root/portraits/name.e]. *)
Definition portrait_path (root name e : jsstring) : jsstring :=
  root ++ str "/portraits/" ++ name ++ DOT :: e.

(** A path in the portraits convention, as the pattern reads it. *)
Definition portrait_convention (s : jsstring) : Prop :=
  ∃ root name e, s = portrait_path root name e ∧ portrait_parts root name e.

(** Well-formed UTF-16: every surrogate is half of a pair. *)
Fixpoint well_formed (s : jsstring) : bool :=
  match s with
  | [] => true
  | c :: rest =>
      if is_trail_surrogate c then false
      else if is_lead_surrogate c then
        match rest with
        | d :: rest' => is_trail_surrogate d && well_formed rest'
        | [] => false
        end
      else well_formed rest
  end.

(** *** The matcher, declaratively *)

(** [matches r pos x y]: at index [pos], with [y] left after it, the
    string [x] is in the language of [r]. *)
Fixpoint matches (r : regex) (pos : nat) (x y : jsstring) : Prop :=
  match r with
  | Bol => pos = 0 ∧ x = []
  | Eol => x = [] ∧ y = []
  | Chars l => x = l
  | Star cls => forallb cls x = true
  | Plus cls => x ≠ [] ∧ forallb cls x = true
  | Cat r1 r2 =>
      ∃ x1 x2, x = x1 ++ x2 ∧ matches r1 pos x1 (x2 ++ y) ∧
               matches r2 (pos + length x1) x2 y
  | Group _ r' => matches r' pos x y
  end.

(** The pattern from each group onwards. *)
Definition ext_re : regex := Cat (Chars (str ".")) (Plus not_dot_slash).
Definition tail3 : regex := Cat (Group 3 ext_re) Eol.
Definition tail2 : regex := Cat (Group 2 (Plus not_slash)) tail3.
Definition tail1 : regex := Cat (Chars (str "/portraits/")) tail2.

Definition slashes (s : jsstring) : nat := length (filter (λ c, c = SLASH) s).

(** *** Reading the document *)

(** Reads through optional chaining: a property of a missing object is
    undefined. *)
Definition bare_ring : Ring :=
  {| enabled := VUndefined; effects := VUndefined; colors := None; subject := None |}.

Definition token_of (s : Source) : PrototypeToken :=
  default empty_token (prototypeToken s).
Definition texture_of (s : Source) : Texture :=
  default empty_texture (texture (token_of s)).
Definition ring_of (s : Source) : Ring :=
  default bare_ring (ring (token_of s)).
Definition colors_of (s : Source) : RingColors :=
  default empty_colors (colors (ring_of s)).
Definition subject_of (s : Source) : RingSubject :=
  default empty_subject (subject (ring_of s)).

(** A ring object, where the document has one, carries both of its
    nested objects. *)
Definition ring_complete (s : Source) : bool :=
  match prototypeToken s with
  | None => true
  | Some pt =>
      match ring pt with
      | None => true
      | Some r =>
          match colors r, subject r with
          | Some _, Some _ => true
          | _, _ => false
          end
      end
  end.

(** The six ring fields as lines 257-262 leave them. *)
Definition ring_written (mode color : value) (s : Source) : Prop :=
  enabled (ring_of s) = VBool (hasRings mode) ∧
  effects (ring_of s) = VNum 1 ∧
  colors_ring (colors_of s) = (if hasRings mode then color else VNull) ∧
  colors_background (colors_of s) = VNull ∧
  subject_scale (subject_of s) = (if hasRings mode then VNum 0.8 else VNum 1.0) ∧
  subject_texture (subject_of s) = VNull.

(** *** The gate and the portrait *)

(** The pack is one of the preloaded ones. *)
Definition pack_supported (st : module_state) (pack : value) : Prop :=
  MAPPING_DATA_LOADED st = true ∧
  ∃ id, packIdOf pack = VStr id ∧ id ∈ SUPPORTED_PACKS st.

(** A value that converts to a string: anything but an object with an
    own property named toString. *)
Definition convertible (v : value) : bool :=
  match v with
  | VObj props => negb (has_own (str "toString") props)
  | _ => true
  end.

(** The name of the document converts to a string. *)
Definition name_converts (s : Source) : bool := convertible (name s).

(** The portrait the art descriptor carries: a non-empty string under
    [actor], if there is one. *)
Definition portrait_of (art : value) : option jsstring :=
  match opt_get art "actor" with
  | VStr a => if truthy (VStr a) then Some a else None
  | _ => None
  end.

(** The deriver returns for the portrait of [art] (it throws on a base
    name with an unpaired surrogate). *)
Definition deriver_returns (art : value) : bool :=
  match portrait_of art with
  | Some a =>
      match buildPathsFromActorImg a with
      | Normal _ => true
      | Throw _ => false
      end
  | None => true
  end.

(** *** The preloader, declaratively *)

(** The keys one configured system contributes: those of its mapping
    file when it was fetched and parsed, none otherwise. *)
Definition keys_of_mapping (fetch : network) (config : value) : gset jsstring :=
  match opt_get config "mapping" with
  | VStr url =>
      if bool_decide (url = []) then ∅
      else
        match fetch (VStr url) with
        | Normal r =>
            if ok r then
              match json r with
              | Normal data =>
                  match Object_keys data with
                  | Normal ks => list_to_set ks
                  | Throw _ => ∅
                  end
              | Throw _ => ∅
              end
            else ∅
        | Throw _ => ∅
        end
  | _ => ∅
  end.

(** The systems the module manifest configures. *)
Definition configured (module : value) : list (jsstring * value) :=
  match logical_or (opt_get (opt_get module "flags") "compendiumArtMappings") (VObj []) with
  | VObj props => props
  | VStr s => imap (fun i c => (index_key i, VStr [c])) s
  | _ => []
  end.

(** The union of the keys of every mapping file that loaded. *)
Definition supported_union (fetch : network) (module : value) : gset jsstring :=
  ⋃ (map (fun entry => keys_of_mapping fetch (snd entry)) (configured module)).

(** A request that fails: rejected, answered with a non-ok status, or
    answered with a body that does not parse. *)
Definition fetch_fails (fetch : network) (url : jsstring) : Prop :=
  match fetch (VStr url) with
  | Throw _ => True
  | Normal r => ok r = false ∨ ∃ e, json r = Throw e
  end.

(** The manifest of two configured systems. *)
Definition two_systems (sysA sysB urlA urlB : jsstring) : value :=
  VObj [(str "flags",
         VObj [(str "compendiumArtMappings",
                VObj [(sysA, VObj [(str "mapping", VStr urlA)]);
                      (sysB, VObj [(str "mapping", VStr urlB)])])])].

(** *** The settings registry *)

Definition setting_of (key : jsstring) : option Setting.t :=
  (fun found => reg_data (snd found)) <$>
  list_find (fun r => reg_key r = key) registered.

(** *** The branches of the portrait step *)

(** Which token source and which [randomImg] lines 229-247 choose, given
    the mode, the portrait and what the deriver returned. *)
Definition chosen_src (mode : value) (a : jsstring) (p : paths) : value * bool :=
  if strict_eq_str mode TOKEN_MODE.PORTRAIT_RINGS then (VStr a, false)
  else if isWildcardMode mode && truthy (wildcardSrc p) then (wildcardSrc p, true)
  else if truthy (circleSrc p) then (circleSrc p, false)
  else (VStr a, false).

(** The assignments of the portrait step once the branch is chosen
    (line 226, one branch of lines 229-247, lines 250-252). *)
Definition token_image (cfg : settings) (a : jsstring) (tokenSrc : value) (random : bool)
    : M Source unit :=
  set_img (VStr a) >>
  (set_texture_src tokenSrc >> set_randomImg (VBool random)) >>
  set_width (tokenWidth cfg) >>
  set_height (tokenHeight cfg) >>
  set_texture_fit (imageFitMode cfg).

(* ===================================================================== *)
(** ** Sample inputs *)
(* ===================================================================== *)

(** A host whose colour API returns the CSS string of a colour given as
    a string and nothing otherwise.  No example converts a number; the
    text of one is only given for NaN. *)
Definition ex_host : host :=
  {| Color_css := fun v => match v with VStr s => VStr s | _ => VUndefined end;
     Number_toString := fun _ => str "NaN" |}.

Definition ex_state : module_state :=
  {| SUPPORTED_PACKS := {[ str "daggerheart.adversaries" ]};
     MAPPING_DATA_LOADED := true |}.

(** The registered defaults, with the mode left open. *)
Definition ex_settings (mode : jsstring) : settings :=
  {| tokenAutoRotate := VBool false;
     debugLogging := VBool false;
     ringColor := VStr (str "#8f0000");
     tokenMode := VStr mode;
     tokenWidth := VNum 1;
     tokenHeight := VNum 1;
     imageFitMode := VStr (str "contain") |}.

Definition ex_pack : value :=
  VObj [(str "metadata", VObj [(str "id", VStr (str "daggerheart.adversaries"))]);
        (str "collection", VStr (str "world.adversaries"))].

Definition ex_art (actor : jsstring) : value := VObj [(str "actor", VStr actor)].

(** A document with a token and a texture, and the ring given. *)
Definition ex_source (r : option Ring) : Source :=
  {| name := VStr (str "Cult Adept");
     img := VStr (str "icons/svg/mystery-man.svg");
     prototypeToken :=
       Some {| texture := Some {| src := VStr (str "icons/svg/mystery-man.svg");
                                  fit := VStr (str "contain") |};
               ring := r;
               randomImg := VBool false;
               width := VNum 1;
               height := VNum 1 |} |}.

(** An object that does not convert to a string: its own toString is
    a number. *)
Definition ex_unprintable : value := VObj [(str "toString", VNum 1)].

(** A document with that object for a name, and nothing else. *)
Definition ex_unnamed : Source :=
  {| name := ex_unprintable; img := VUndefined; prototypeToken := None |}.

(** The registered defaults with that object for a ring colour. *)
Definition ex_settings_unprintable (mode : jsstring) : settings :=
  {| tokenAutoRotate := VBool false;
     debugLogging := VBool false;
     ringColor := ex_unprintable;
     tokenMode := VStr mode;
     tokenWidth := VNum 1;
     tokenHeight := VNum 1;
     imageFitMode := VStr (str "contain") |}.

Definition ex_ring (c : option RingColors) (sj : option RingSubject) : Ring :=
  {| enabled := VBool false; effects := VNum 0; colors := c; subject := sj |}.

Definition ex_colors : RingColors :=
  {| colors_ring := VNull; colors_background := VNull |}.

Definition ex_subject : RingSubject :=
  {| subject_scale := VNum 1; subject_texture := VNull |}.

(** A network on which one mapping file is missing and the other holds
    the object with the keys packA and packB. *)
Definition ex_network : network :=
  fun request =>
    if strict_eq_str request (str "modules/art-for-daggerheart/map-gone.json") then
      Normal {| ok := false; status := 404; json := Throw SyntaxError |}
    else if strict_eq_str request (str "modules/art-for-daggerheart/map-daggerheart.json") then
      Normal {| ok := true; status := 200;
                json := Normal (VObj [(str "packA", VNum 1); (str "packB", VNum 2)]) |}
    else Throw TypeError.

(* ===================================================================== *)
(** ** Vocabulary of the further statements *)
(* ===================================================================== *)

(** A string the language can hold: every unit fits 16 bits. *)
Definition code_unit (c : N) : Prop := (c < 65536)%N.
Definition code_units (s : jsstring) : Prop := Forall code_unit s.

(** What an encoded component is made of: unreserved characters and the
    percent sign of an escape (the digits of an escape are unreserved). *)
Definition escaped (c : N) : bool := uriUnreserved c || bool_decide (c = PERCENT).

(* ===================================================================== *)
(** ** The mode table *)
(* ===================================================================== *)

(** Where a mode takes the token image from. *)
Inductive token_source := FromTokens | FromCircle | FromPortrait.

(** One row per mode: the token image source, whether the image is
    picked at random, whether the ring is enabled.  A value that is none
    of the five modes falls through the tests of the handler to the
    circle row. *)
Definition mode_row (mode : value) : token_source * bool * bool :=
  if strict_eq_str mode TOKEN_MODE.WILDCARDS then (FromTokens, true, false)
  else if strict_eq_str mode TOKEN_MODE.WILDCARDS_RINGS then (FromTokens, true, true)
  else if strict_eq_str mode TOKEN_MODE.CIRCLE then (FromCircle, false, false)
  else if strict_eq_str mode TOKEN_MODE.CIRCLE_RINGS then (FromCircle, false, true)
  else if strict_eq_str mode TOKEN_MODE.PORTRAIT_RINGS then (FromPortrait, false, true)
  else (FromCircle, false, false).

(** The path a row stands for, for the portrait root/portraits/name.e
    whose base name encodes to [enc]. *)
Definition row_path (k : token_source) (root name enc e : jsstring) : jsstring :=
  match k with
  | FromTokens => root ++ str "/tokens/" ++ enc ++ str "*" ++ DOT :: e
  | FromCircle => root ++ str "/circle/" ++ name ++ DOT :: e
  | FromPortrait => portrait_path root name e
  end.

(** How a run of the handler past its gate completes, read off the
    name of the document, the ring colour setting, the portrait and the
    shape of the document, in the order the handler meets them. *)
Definition outcome (h : host) (cfg : settings) (art : value) (source : Source)
    : completion unit :=
  if negb (name_converts source) then Throw TypeError
  else
    match ringColorOf h cfg with
    | Throw _ => Throw TypeError
    | Normal _ =>
        if negb (deriver_returns art) then Throw URIError
        else if ring_complete source then Normal tt
        else Throw TypeError
    end.

(* ===================================================================== *)
(** ** The ready hook *)
(* ===================================================================== *)

(** The hook runs against the module's two variables and the state of
    the host, of some type [H]. *)
Definition in_module {H A} (m : M module_state A) : M (module_state * H) A :=
  fun w => let (st, c) := m (fst w) in ((st, snd w), c).

Definition in_host {H A} (m : M H A) : M (module_state * H) A :=
  fun w => let (hs, c) := m (snd w) in ((fst w, hs), c).

(** The callback of [Hooks.once("ready", ...)] (lines 285-300), given
    the host's [game.settings.set("core", "tokenAutoRotate", v)]; the
    debug calls only print. *)
Definition ready {H} (fetch : network) (module : value) (cfg : settings)
    (settings_set_core : value -> M H unit) : M (module_state * H) unit :=
  in_module (preloadMappingData fetch module) >>
  let tokenAutoRotate := tokenAutoRotate cfg in
  try_catch (in_host (settings_set_core tokenAutoRotate)) (fun _ => ret tt).

(** A host whose core setting cannot be written: the call throws and
    changes nothing.  Its state is the value of the core setting. *)
Definition ex_locked_core (v : value) : M value unit := fun hs => (hs, Throw TypeError).

(** A host that stores the value. *)
Definition ex_core (v : value) : M value unit := fun _ => (v, Normal tt).

(* ===================================================================== *)
(** ** The registry, read back *)
(* ===================================================================== *)

(** The keys of the choices an option is registered with. *)
Definition choice_keys (d : Setting.t) : option (list jsstring) :=
  map fst <$> Setting.choices d.

(** The default of an option is one of its choices, when it has any. *)
Definition default_is_choice (d : Setting.t) : Prop :=
  match choice_keys d with
  | Some ks => ∃ k, Setting.default d = VStr k ∧ k ∈ ks
  | None => True
  end.

(** The five modes. *)
Definition token_modes : list jsstring :=
  [TOKEN_MODE.WILDCARDS; TOKEN_MODE.WILDCARDS_RINGS; TOKEN_MODE.CIRCLE;
   TOKEN_MODE.CIRCLE_RINGS; TOKEN_MODE.PORTRAIT_RINGS].

(** The ways one pass of the preload loop finds nothing to add: no
    usable mapping path, a rejected request, a non-ok answer, a body that
    does not parse, or a body that is null, a boolean or a number. *)
Definition nothing_to_load (fetch : network) (config : value) : Prop :=
  let mapping := opt_get config "mapping" in
  is_string mapping = false ∨ mapping = VStr [] ∨
  match fetch mapping with
  | Throw _ => True
  | Normal r =>
      ok r = false ∨
      match json r with
      | Throw _ => True
      | Normal (VUndefined | VNull | VBool _ | VNum _) => True
      | Normal _ => False
      end
  end.

(* ===================================================================== *)
(** * Proofs *)
(* ===================================================================== *)

(** ** The matcher *)

Lemma strip_app l s : strip l (l ++ s) = Some s.
Proof. induction l as [|a l IH]; [done|]. cbn. by rewrite bool_decide_eq_true_2. Qed.

Lemma strip_Some l s rest : strip l s = Some rest → s = l ++ rest.
Proof.
  revert s. induction l as [|a l IH]; intros s H.
  - cbn in H. by inversion H.
  - destruct s as [|b s]; [done|]. cbn in H.
    case_bool_decide; [|done]. subst b. cbn. f_equal. by apply IH.
Qed.

Section Greedy.
Context (cls : N → bool) (k : nat → jsstring → option captures).

(** No split of the input satisfies the continuation: the repetition
    fails. *)
Lemma greedy_none pos s :
  (∀ x y, s = x ++ y → forallb cls x = true → k (pos + length x) y = None) →
  greedy cls k pos s = None.
Proof.
  revert pos. induction s as [|c s IH]; intros pos H.
  - cbn. specialize (H [] [] eq_refl eq_refl). by rewrite Nat.add_0_r in H.
  - cbn. assert (k pos (c :: s) = None) as H0.
    { specialize (H [] (c :: s) eq_refl eq_refl). by rewrite Nat.add_0_r in H. }
    destruct (cls c) eqn:Hc; [|done].
    rewrite IH; [done|]. intros x y -> Hx.
    specialize (H (c :: x) y eq_refl). cbn in H. rewrite Hc, Hx in H.
    rewrite <- Nat.add_succ_comm in H. by apply H.
Qed.

(** No longer split satisfies the continuation: the repetition takes
    nothing. *)
Lemma greedy_here pos s :
  (∀ x y, s = x ++ y → x ≠ [] → forallb cls x = true →
          k (pos + length x) y = None) →
  greedy cls k pos s = k pos s.
Proof.
  intros H. destruct s as [|c s]; [done|]. cbn.
  destruct (cls c) eqn:Hc; [|done].
  rewrite greedy_none; [done|]. intros x y -> Hx.
  specialize (H (c :: x) y eq_refl). cbn in H. rewrite Hc, Hx in H.
  rewrite <- Nat.add_succ_comm in H. by apply H.
Qed.

(** The longest split that satisfies the continuation is the one the
    repetition settles on. *)
Lemma greedy_first pos pre rest r :
  forallb cls pre = true →
  k (pos + length pre) rest = Some r →
  (∀ x y, rest = x ++ y → x ≠ [] → forallb cls x = true →
          k (pos + length pre + length x) y = None) →
  greedy cls k pos (pre ++ rest) = Some r.
Proof.
  revert pos. induction pre as [|c pre IH]; intros pos Hpre Hk Hlonger.
  - cbn in *. rewrite Nat.add_0_r in *. rewrite greedy_here; [done|].
    intros x y ? ? ?. by apply Hlonger.
  - cbn in Hpre. apply andb_true_iff in Hpre as [Hc Hpre]. cbn. rewrite Hc.
    rewrite (IH (S pos)); [done|done| |].
    + cbn in Hk. by rewrite <- Nat.add_succ_comm in Hk.
    + intros x y ? ? ?. cbn in Hlonger.
      rewrite <- Nat.add_succ_comm in Hlonger. by apply Hlonger.
Qed.

(** When the continuation only accepts the end of the input, the
    repetition over a string of the class takes all of it. *)
Lemma greedy_all pos s :
  forallb cls s = true →
  (∀ x y, s = x ++ y → y ≠ [] → k (pos + length x) y = None) →
  greedy cls k pos s = k (pos + length s) [].
Proof.
  revert pos. induction s as [|c s IH]; intros pos Hs Hk.
  - cbn. by rewrite Nat.add_0_r.
  - cbn in Hs. apply andb_true_iff in Hs as [Hc Hs]. cbn. rewrite Hc.
    rewrite (IH (S pos)); [|done|].
    + rewrite <- Nat.add_succ_comm.
      destruct (k (S pos + length s) []); [done|].
      specialize (Hk [] (c :: s) eq_refl). rewrite Nat.add_0_r in Hk. by apply Hk.
    + intros x y -> Hy. specialize (Hk (c :: x) y eq_refl Hy).
      cbn in Hk. by rewrite <- Nat.add_succ_comm in Hk.
Qed.

(** A successful repetition stopped at some split of the input. *)
Lemma greedy_sound pos s r :
  greedy cls k pos s = Some r →
  ∃ x y, s = x ++ y ∧ forallb cls x = true ∧ k (pos + length x) y = Some r.
Proof.
  revert pos. induction s as [|c s IH]; intros pos H.
  - exists [], []. cbn in *. by rewrite Nat.add_0_r.
  - cbn in H.
    assert (k pos (c :: s) = Some r →
            ∃ x y, c :: s = x ++ y ∧ forallb cls x = true ∧
                   k (pos + length x) y = Some r) as Hhere.
    { intros Hk. exists [], (c :: s). cbn. by rewrite Nat.add_0_r. }
    destruct (cls c) eqn:Hc; [|by apply Hhere].
    destruct (greedy cls k (S pos) s) as [r'|] eqn:Hg; [|by apply Hhere].
    inversion H; subst r'. apply IH in Hg as (x & y & -> & Hx & Hk).
    exists (c :: x), y. cbn. rewrite Hc, Hx. by rewrite <- Nat.add_succ_comm.
Qed.
End Greedy.

(** One step of [run] per constructor. *)
Lemma run_Bol0 k s caps : run Bol k 0 s caps = k 0 s caps.
Proof. reflexivity. Qed.

Lemma run_Eol_nil k p caps : run Eol k p [] caps = k p [] caps.
Proof. reflexivity. Qed.

Lemma run_Cat r1 r2 k p s caps :
  run (Cat r1 r2) k p s caps =
  run r1 (fun p' rest caps' => run r2 k p' rest caps') p s caps.
Proof. reflexivity. Qed.

Lemma run_Group i r k p s caps :
  run (Group i r) k p s caps =
  run r (fun p' rest caps' => k p' rest (<[i := Some (take (p' - p) s)]> caps')) p s caps.
Proof. reflexivity. Qed.

Lemma run_Chars l k p s caps :
  run (Chars l) k p (l ++ s) caps = k (p + length l) s caps.
Proof. cbn [run]. by rewrite strip_app. Qed.

Lemma run_Chars1 a k p s caps :
  run (Chars [a]) k p (a :: s) caps = k (p + 1) s caps.
Proof. apply (run_Chars [a]). Qed.

Lemma run_Star cls k p s caps :
  run (Star cls) k p s caps = greedy cls (fun p' rest => k p' rest caps) p s.
Proof. reflexivity. Qed.

Lemma run_Plus cls k p c s caps :
  cls c = true →
  run (Plus cls) k p (c :: s) caps = greedy cls (fun p' rest => k p' rest caps) (S p) s.
Proof. intros Hc. cbn [run]. by rewrite Hc. Qed.

(** Whatever [run] accepts is in the language of the pattern: the input
    splits into a matched part and the rest handed to the continuation. *)
Lemma run_sound r : ∀ k pos s caps m,
  run r k pos s caps = Some m →
  ∃ x y caps', s = x ++ y ∧ matches r pos x y ∧ k (pos + length x) y caps' = Some m.
Proof.
  induction r as [| |l|cls|cls|r1 IH1 r2 IH2|i r IH]; intros k pos s caps m H; cbn in H.
  - destruct (Nat.eqb_spec pos 0); [|done]. exists [], s, caps. cbn.
    by rewrite Nat.add_0_r.
  - destruct s; [|done]. exists [], [], caps. cbn. by rewrite Nat.add_0_r.
  - destruct (strip l s) as [rest|] eqn:Hs; [|done]. apply strip_Some in Hs.
    by exists l, rest, caps.
  - apply greedy_sound in H as (x & y & -> & Hx & Hk). by exists x, y, caps.
  - destruct s as [|c s]; [done|]. destruct (cls c) eqn:Hc; [|done].
    apply greedy_sound in H as (x & y & -> & Hx & Hk).
    exists (c :: x), y, caps. cbn. rewrite Hc, Hx. by rewrite <- Nat.add_succ_comm.
  - apply IH1 in H as (x1 & y1 & caps1 & -> & Hm1 & H).
    apply IH2 in H as (x2 & y & caps2 & -> & Hm2 & H).
    exists (x1 ++ x2), y, caps2. rewrite <- app_assoc. split; [done|]. split.
    + cbn. by exists x1, x2.
    + by rewrite length_app, Nat.add_assoc.
  - apply IH in H as (x & y & caps' & -> & Hm & H). eauto 10.
Qed.

(** ** The portraits pattern *)

Lemma slashes_app s t : slashes (s ++ t) = slashes s + slashes t.
Proof. unfold slashes. by rewrite filter_app, length_app. Qed.

Lemma slashes_not_slash s : forallb not_slash s = true → slashes s = 0.
Proof.
  induction s as [|c s IH]; [done|]. cbn [forallb]. intros [Hc Hs]%andb_true_iff.
  unfold slashes. rewrite filter_cons. unfold not_slash in Hc.
  apply negb_true_iff, bool_decide_eq_false in Hc.
  rewrite decide_False by done. by apply IH.
Qed.

Lemma not_dot_slash_not_slash e :
  forallb not_dot_slash e = true → forallb not_slash e = true.
Proof.
  induction e as [|c e IH]; [done|]. cbn. intros [Hc He]%andb_true_iff.
  rewrite IH by done. rewrite andb_true_r.
  unfold not_dot_slash, not_slash in *.
  apply negb_true_iff, orb_false_iff in Hc as [_ Hc]. by rewrite Hc.
Qed.

(** What each tail of the pattern accepts. *)
Lemma matches_tail3 p x y :
  matches tail3 p x y →
  ∃ e, x = DOT :: e ∧ y = [] ∧ e ≠ [] ∧ forallb not_dot_slash e = true.
Proof.
  cbn. intros (x1 & x2 & -> & (d & e & -> & -> & He & Hcls) & -> & Hy).
  exists e. by rewrite app_nil_r.
Qed.

Lemma matches_tail2 p x y :
  matches tail2 p x y →
  ∃ name e, x = name ++ DOT :: e ∧ y = [] ∧
            name ≠ [] ∧ forallb not_slash name = true ∧
            e ≠ [] ∧ forallb not_dot_slash e = true.
Proof.
  intros (name & x2 & -> & [Hn Hcls] & H).
  apply matches_tail3 in H as (e & -> & -> & He & Hcls').
  by exists name, e.
Qed.

Lemma matches_tail1 p x y :
  matches tail1 p x y →
  ∃ name e, x = str "/portraits/" ++ name ++ DOT :: e ∧ y = [] ∧
            name ≠ [] ∧ forallb not_slash name = true ∧
            e ≠ [] ∧ forallb not_dot_slash e = true.
Proof.
  intros (l & x2 & -> & -> & H).
  apply matches_tail2 in H as (name & e & -> & -> & H).
  by exists name, e.
Qed.

(** Group 3 and the end anchor on an extension. *)
Lemma run_tail3 k p e caps :
  e ≠ [] → forallb not_dot_slash e = true →
  run tail3 k p (DOT :: e) caps =
  k (p + S (length e)) [] (<[3 := Some (DOT :: e)]> caps).
Proof.
  intros He Hcls. destruct e as [|c e]; [done|].
  cbn [forallb] in Hcls. apply andb_true_iff in Hcls as [Hc Hcls].
  unfold tail3, ext_re. rewrite run_Cat, run_Group, run_Cat.
  change (str ".") with [DOT]. rewrite run_Chars1, run_Plus by done.
  rewrite greedy_all; [|done|].
  - rewrite run_Eol_nil. cbn [length].
    replace (S (p + 1) + length e - p) with (S (S (length e))) by lia.
    rewrite (take_ge (DOT :: c :: e)) by (cbn [length]; lia). f_equal. lia.
  - intros x y _ Hy. by destruct y.
Qed.

(** Group 2 gives back exactly the extension: a longer base name would
    leave a rest that does not begin with a dot. *)
Lemma run_tail2 k p name e caps r :
  name ≠ [] → forallb not_slash name = true →
  e ≠ [] → forallb not_dot_slash e = true →
  k (p + length name + S (length e)) []
    (<[3 := Some (DOT :: e)]> (<[2 := Some name]> caps)) = Some r →
  run tail2 k p (name ++ DOT :: e) caps = Some r.
Proof.
  intros Hn Hncls He Hecls Hk. destruct name as [|c name]; [done|].
  cbn in Hncls. apply andb_true_iff in Hncls as [Hc Hncls].
  unfold tail2. rewrite run_Cat, run_Group. cbn [app]. rewrite run_Plus by done.
  apply greedy_first; [done| |].
  - rewrite run_tail3 by done.
    replace (S p + length name - p) with (S (length name)) by lia.
    cbn [take]. rewrite take_app_length.
    rewrite <- Hk. f_equal. cbn. lia.
  - intros x y Hxy Hx _.
    match goal with |- ?t = None => destruct t as [m|] eqn:Hrun; [exfalso|done] end.
    apply run_sound in Hrun as (x3 & y3 & caps' & -> & Hm & _).
    apply matches_tail3 in Hm as (e3 & -> & _).
    destruct x as [|d x]; [done|]. injection Hxy as _ Hexy.
    rewrite Hexy, !forallb_app in Hecls.
    apply andb_true_iff in Hecls as [_ [Hbad _]%andb_true_iff].
    by vm_compute in Hbad.
Qed.

Lemma run_tail1 k p name e caps r :
  name ≠ [] → forallb not_slash name = true →
  e ≠ [] → forallb not_dot_slash e = true →
  k (p + 11 + length name + S (length e)) []
    (<[3 := Some (DOT :: e)]> (<[2 := Some name]> caps)) = Some r →
  run tail1 k p (str "/portraits/" ++ name ++ DOT :: e) caps = Some r.
Proof.
  intros Hn Hncls He Hecls Hk.
  unfold tail1. rewrite run_Cat, run_Chars.
  by apply run_tail2.
Qed.

(** Group 1 cannot keep more than the root: past it, the rest holds a
    single slash, and the tail needs two. *)
Lemma tail1_no_later k p name e caps x y :
  forallb not_slash name = true → forallb not_dot_slash e = true →
  str "/portraits/" ++ name ++ DOT :: e = x ++ y → x ≠ [] →
  run tail1 k p y caps = None.
Proof.
  intros Hncls Hecls Hxy Hx.
  destruct (run tail1 k p y caps) as [m|] eqn:Hrun; [exfalso|done].
  apply run_sound in Hrun as (x1 & y1 & caps' & -> & Hm & _).
  apply matches_tail1 in Hm as (n2 & e2 & -> & -> & _ & Hn2 & _ & He2).
  destruct x as [|c x]; [done|].
  assert (c = SLASH) as ->
    by (apply (f_equal head) in Hxy; vm_compute in Hxy;
        injection Hxy as Hc; rewrite <- Hc; reflexivity).
  apply (f_equal slashes) in Hxy.
  change (SLASH :: x) with ([SLASH] ++ x) in Hxy.
  change (DOT :: e) with ([DOT] ++ e) in Hxy.
  change (DOT :: e2) with ([DOT] ++ e2) in Hxy.
  repeat rewrite slashes_app in Hxy.
  rewrite (slashes_not_slash name), (slashes_not_slash n2) in Hxy by done.
  rewrite (slashes_not_slash e), (slashes_not_slash e2) in Hxy
    by by apply not_dot_slash_not_slash.
  change (slashes (str "/portraits/")) with 2 in Hxy.
  change (slashes [DOT]) with 0 in Hxy. change (slashes [SLASH]) with 1 in Hxy.
  change (slashes []) with 0 in Hxy.
  lia.
Qed.

Lemma exec_from_unfold re g pos s :
  exec_from re g pos s =
  match run (Group 0 re) (fun _ _ caps => Some caps) pos s (replicate (S g) None) with
  | Some m => Some m
  | None => match s with [] => None | _ :: s' => exec_from re g (S pos) s' end
  end.
Proof. by destruct s. Qed.

Lemma portraits_re_eq : portraits_re = Cat Bol (Cat (Group 1 (Star dot)) tail1).
Proof. reflexivity. Qed.

(** The start anchor confines the match to index 0. *)
Lemma exec_from_portraits_later s : ∀ pos, exec_from portraits_re 3 (S pos) s = None.
Proof.
  induction s as [|c s IH]; intros pos; [done|].
  rewrite exec_from_unfold. cbn [run Nat.eqb]. apply IH.
Qed.

Lemma exec_portraits_run s :
  exec portraits_re 3 s =
  run (Group 0 portraits_re) (fun _ _ caps => Some caps) 0 s (replicate 4 None).
Proof.
  unfold exec. rewrite exec_from_unfold.
  destruct (run _ _ 0 s _); [done|]. destruct s; [done|].
  apply exec_from_portraits_later.
Qed.

(** On a path of the convention the pattern matches, and the three
    groups are the root, the base name and the extension. *)
Lemma exec_portraits_match root name e :
  portrait_parts root name e →
  exec portraits_re 3 (portrait_path root name e) =
  Some [Some (portrait_path root name e); Some root; Some name; Some (DOT :: e)].
Proof.
  intros (Hroot & Hn & Hncls & He & Hecls).
  rewrite exec_portraits_run, run_Group, portraits_re_eq.
  rewrite run_Cat, run_Bol0, run_Cat, run_Group, run_Star.
  unfold portrait_path. apply greedy_first; [done| |].
  - erewrite run_tail1; [reflexivity|done..|].
    rewrite !Nat.sub_0_r, Nat.add_0_l. rewrite take_app_length.
    rewrite take_ge; [done|]. rewrite !length_app. cbn [length].
    change (length (str "/portraits/")) with 11. lia.
  - intros x y Hxy Hx _. by eapply tail1_no_later.
Qed.

(** The pattern matches nothing else. *)
Lemma exec_portraits_sound s m :
  exec portraits_re 3 s = Some m → portrait_convention s.
Proof.
  rewrite exec_portraits_run. intros H.
  apply run_sound in H as (x & y & caps' & -> & Hm & _).
  rewrite portraits_re_eq in Hm.
  destruct Hm as (x0 & x1 & -> & [_ ->] & root & x2 & -> & Hroot & Hm).
  apply matches_tail1 in Hm as (name & e & -> & -> & Hn & Hncls & He & Hecls).
  exists root, name, e. split; [|done].
  unfold portrait_path. cbn [app]. by rewrite app_nil_r.
Qed.

Lemma exec_portraits_none s :
  ¬ portrait_convention s → exec portraits_re 3 s = None.
Proof.
  intros Hno. destruct (exec portraits_re 3 s) as [m|] eqn:H; [|done].
  destruct Hno. by eapply exec_portraits_sound.
Qed.

Lemma no_convention_by_exec s : exec portraits_re 3 s = None → ¬ portrait_convention s.
Proof. intros H (root & name & e & -> & Hparts). by rewrite exec_portraits_match in H. Qed.

(** ** encodeURIComponent *)

Lemma unreserved_not_surrogate c :
  uriUnreserved c = true →
  is_trail_surrogate c = false ∧ is_lead_surrogate c = false.
Proof.
  unfold uriUnreserved, is_trail_surrogate, is_lead_surrogate, in_range.
  intros H. repeat (apply orb_true_iff in H as [H|H]).
  - apply andb_true_iff in H as [H1 H2]. apply N.leb_le in H1, H2.
    split; apply andb_false_iff; left; apply N.leb_gt; lia.
  - apply andb_true_iff in H as [H1 H2]. apply N.leb_le in H1, H2.
    split; apply andb_false_iff; left; apply N.leb_gt; lia.
  - apply andb_true_iff in H as [H1 H2]. apply N.leb_le in H1, H2.
    split; apply andb_false_iff; left; apply N.leb_gt; lia.
  - apply bool_decide_eq_true in H.
    repeat (apply elem_of_cons in H as [->|H]; [by vm_compute|]).
    by apply elem_of_nil in H.
Qed.

(** The encoder returns on well-formed strings and throws a URIError on
    the others; by induction on a bound of the length, since a surrogate
    pair takes two units at once. *)
Lemma encodeURIComponent_cases n : ∀ s, length s ≤ n →
  if well_formed s then ∃ enc, encodeURIComponent s = Normal enc
  else encodeURIComponent s = Throw URIError.
Proof.
  induction n as [|n IH]; intros s Hlen.
  - destruct s; [|cbn in Hlen; lia]. cbn. eauto.
  - destruct s as [|c rest]; [cbn; eauto|]. cbn in Hlen.
    cbn [well_formed encodeURIComponent].
    destruct (uriUnreserved c) eqn:Hu.
    + apply unreserved_not_surrogate in Hu as [-> ->].
      specialize (IH rest ltac:(lia)). destruct (well_formed rest).
      * destruct IH as [enc ->]. eauto.
      * by rewrite IH.
    + destruct (is_trail_surrogate c); [done|].
      destruct (is_lead_surrogate c).
      * destruct rest as [|d rest']; [done|].
        destruct (is_trail_surrogate d); [|done].
        cbn in Hlen. specialize (IH rest' ltac:(lia)). cbn [andb].
        destruct (well_formed rest').
        -- destruct IH as [enc ->]. eauto.
        -- by rewrite IH.
      * specialize (IH rest ltac:(lia)). destruct (well_formed rest).
        -- destruct IH as [enc ->]. eauto.
        -- by rewrite IH.
Qed.

Lemma encodeURIComponent_total s :
  well_formed s = true → ∃ enc, encodeURIComponent s = Normal enc.
Proof.
  intros H. pose proof (encodeURIComponent_cases (length s) s (le_n _)) as Hs.
  by rewrite H in Hs.
Qed.

Lemma encodeURIComponent_throws s :
  well_formed s = false → encodeURIComponent s = Throw URIError.
Proof.
  intros H. pose proof (encodeURIComponent_cases (length s) s (le_n _)) as Hs.
  by rewrite H in Hs.
Qed.

(** The example of the comment on line 235. *)
Example encode_space : encodeURIComponent (str "Cult Adept") = Normal (str "Cult%20Adept").
Proof. reflexivity. Qed.

(** ** The path deriver *)

Lemma buildPaths_match root name e :
  portrait_parts root name e →
  buildPathsFromActorImg (portrait_path root name e) =
  match encodeURIComponent name with
  | Normal enc =>
      Normal {| wildcardSrc := VStr (root ++ str "/tokens/" ++ enc ++ str "*" ++ DOT :: e);
                circleSrc := VStr (root ++ str "/circle/" ++ name ++ DOT :: e);
                ext := VStr (DOT :: e) |}
  | Throw err => Throw err
  end.
Proof.
  intros H. unfold buildPathsFromActorImg. rewrite exec_portraits_match by done.
  unfold capture. cbn [lookup list_lookup].
  destruct (encodeURIComponent name); [|done].
  by rewrite <- !(app_assoc root).
Qed.

Lemma buildPaths_no_match s :
  ¬ portrait_convention s → buildPathsFromActorImg s = Normal no_paths.
Proof. intros H. unfold buildPathsFromActorImg. by rewrite exec_portraits_none. Qed.

Lemma buildPaths_returns root name e :
  portrait_parts root name e → well_formed name = true →
  ∃ enc, encodeURIComponent name = Normal enc ∧
    buildPathsFromActorImg (portrait_path root name e) =
    Normal {| wildcardSrc := VStr (root ++ str "/tokens/" ++ enc ++ str "*" ++ DOT :: e);
              circleSrc := VStr (root ++ str "/circle/" ++ name ++ DOT :: e);
              ext := VStr (DOT :: e) |}.
Proof.
  intros Hparts Hwf. destruct (encodeURIComponent_total name Hwf) as [enc Henc].
  exists enc. split; [done|]. by rewrite buildPaths_match, Henc.
Qed.

(** X1.  The deriver throws only a URIError, and it throws exactly on
    a path of the convention whose base name holds an unpaired
    surrogate; on every other string it returns. *)
Lemma buildPaths_throws_iff a err :
  buildPathsFromActorImg a = Throw err ↔
  err = URIError ∧
  ∃ root name e, a = portrait_path root name e ∧ portrait_parts root name e ∧
                 well_formed name = false.
Proof.
  split.
  - intros H. destruct (exec portraits_re 3 a) as [m|] eqn:Hm;
      [|unfold buildPathsFromActorImg in H; by rewrite Hm in H].
    apply exec_portraits_sound in Hm as (root & name & e & -> & Hparts).
    rewrite buildPaths_match in H by done.
    destruct (well_formed name) eqn:Hwf.
    + apply encodeURIComponent_total in Hwf as [enc Henc]. by rewrite Henc in H.
    + rewrite encodeURIComponent_throws in H by done. injection H as <-.
      split; [done|]. by exists root, name, e.
  - intros (-> & root & name & e & -> & Hparts & Hwf).
    rewrite buildPaths_match by done. by rewrite encodeURIComponent_throws.
Qed.

Ltac solve_parts :=
  repeat split; try reflexivity; intros H; vm_compute in H; discriminate H.

(** C1 (amended).  For every actor image path root/portraits/name.e in
    which the root holds no line terminator, the base name is non-empty,
    holds no slash and no unpaired surrogate, and the extension e is
    non-empty and holds neither a dot nor a slash, the path deriver
    returns wildcardSrc = root/tokens/<percent-encoded name>*.e and
    circleSrc = root/circle/name.e, the circle file name left unencoded
    (and ext = .e). *)
Theorem buildPaths_of_portrait root name e :
  portrait_parts root name e → well_formed name = true →
  ∃ enc, encodeURIComponent name = Normal enc ∧
    buildPathsFromActorImg (portrait_path root name e) =
    Normal {| wildcardSrc := VStr (root ++ str "/tokens/" ++ enc ++ str "*" ++ DOT :: e);
              circleSrc := VStr (root ++ str "/circle/" ++ name ++ DOT :: e);
              ext := VStr (DOT :: e) |}.
Proof.
  intros Hparts Hwf. destruct (encodeURIComponent_total name Hwf) as [enc Henc].
  exists enc. split; [done|]. by rewrite buildPaths_match, Henc.
Qed.

Lemma buildPaths_of_portrait_witness :
  ∃ enc, encodeURIComponent (str "Cult Adept") = Normal enc ∧
    buildPathsFromActorImg
      (portrait_path (str "modules/art/assets") (str "Cult Adept") (str "webp")) =
    Normal {| wildcardSrc :=
                VStr (str "modules/art/assets" ++ str "/tokens/" ++ enc ++ str "*" ++
                      DOT :: str "webp");
              circleSrc :=
                VStr (str "modules/art/assets" ++ str "/circle/" ++ str "Cult Adept" ++
                      DOT :: str "webp");
              ext := VStr (DOT :: str "webp") |}.
Proof. apply buildPaths_of_portrait; [solve_parts|reflexivity]. Defined.

(** C1 as stated fails on three kinds of path of the form
    A/portraits/Name.ext whose Name holds no slash and whose ext holds no
    further dot or slash: an empty Name and a line feed inside A make the
    pattern fail, so the deriver returns the empty object; an unpaired
    surrogate inside Name makes encodeURIComponent throw a URIError. *)
Lemma buildPaths_counterexample :
  buildPathsFromActorImg (str "assets/portraits/.webp") = Normal no_paths ∧
  buildPathsFromActorImg (str "assets" ++ [10%N] ++ str "art/portraits/Bear.webp") =
    Normal no_paths ∧
  buildPathsFromActorImg (str "assets/portraits/" ++ [55357%N] ++ str ".webp") =
    Throw URIError.
Proof. repeat split; vm_compute; reflexivity. Qed.

(** ** Conversion to a string *)

Lemma ToString_returns h v :
  convertible v = true → ∃ text, ToString h v = Normal text.
Proof.
  destruct v as [| |[]|x|s|props]; cbn [ToString convertible]; eauto.
  destruct (has_own _ _); [discriminate|]. eauto.
Qed.

Lemma ToString_throws h v :
  convertible v = false → ToString h v = Throw TypeError.
Proof.
  destruct v as [| |[]|x|s|props]; cbn [ToString convertible]; try discriminate.
  by destruct (has_own _ _).
Qed.

(** A template literal completes exactly when each of its substitutions
    converts, and throws nothing but a TypeError. *)
Lemma template_convertible h vs :
  template h vs = if forallb convertible vs then Normal tt else Throw TypeError.
Proof.
  induction vs as [|v vs IH]; [reflexivity|]. cbn [template forallb].
  destruct (convertible v) eqn:Hv; cbn [andb].
  - destruct (ToString_returns h v Hv) as [text ->]. exact IH.
  - by rewrite ToString_throws.
Qed.

Lemma ringColorOf_throws h cfg e : ringColorOf h cfg = Throw e → e = TypeError.
Proof.
  unfold ringColorOf. destruct (is_nullish _); [|discriminate].
  destruct (convertible (ringColor cfg)) eqn:Hraw.
  - by destruct (ToString_returns h _ Hraw) as [text ->].
  - rewrite ToString_throws by done. by intros [= <-].
Qed.

(** ** The handler *)

Lemma Set_has_true s v :
  Set_has s v = true ↔ ∃ id, v = VStr id ∧ id ∈ s.
Proof.
  split.
  - destruct v; try done. cbn. intros H%bool_decide_eq_true. eauto.
  - intros (id & -> & Hin). cbn. by apply bool_decide_eq_true.
Qed.

(** The callback, by its gate: past the two early returns it is
    [process]; before them it leaves the document alone and completes
    as the conversion of the identifier does. *)
Lemma handler_run h st cfg pack art source :
  applyCompendiumArt h st cfg pack art source =
  if MAPPING_DATA_LOADED st && Set_has (SUPPORTED_PACKS st) (packIdOf pack) then
    process h cfg (packIdOf pack) art source
  else (source, template h [packIdOf pack]).
Proof.
  unfold applyCompendiumArt, isPackSupported, debugWarn, debugLog.
  destruct (MAPPING_DATA_LOADED st); cbn [negb andb]; [|reflexivity].
  unfold bind, lift, ret. rewrite !template_convertible. cbn [forallb convertible].
  rewrite !andb_true_r.
  destruct (Set_has _ _) eqn:Hs.
  - apply Set_has_true in Hs as (id & -> & _). reflexivity.
  - by destruct (convertible (packIdOf pack)).
Qed.

(** Past the gate: the literal of line 208, the ring colour, then the
    writes. *)
Lemma process_run h cfg packId art source :
  convertible packId = true →
  process h cfg packId art source =
  if convertible (name source) then
    match ringColorOf h cfg with
    | Normal color => apply_art cfg art color source
    | Throw e => (source, Throw e)
    end
  else (source, Throw TypeError).
Proof.
  intros Hid. unfold process, debugLog, get, bind, lift.
  rewrite template_convertible. cbn [forallb]. rewrite Hid, andb_true_r. cbn [andb].
  destruct (convertible (name source)); [|reflexivity].
  by destruct (ringColorOf h cfg).
Qed.

Lemma gate_open h st cfg pack art source :
  pack_supported st pack →
  applyCompendiumArt h st cfg pack art source =
  process h cfg (packIdOf pack) art source.
Proof.
  intros [Hl Hin]. rewrite handler_run, Hl.
  apply Set_has_true in Hin. by rewrite Hin.
Qed.

Lemma gate_runs h st cfg pack art source color :
  pack_supported st pack →
  convertible (name source) = true →
  ringColorOf h cfg = Normal color →
  applyCompendiumArt h st cfg pack art source = apply_art cfg art color source.
Proof.
  intros Hgate Hname Hcolor. rewrite gate_open by done.
  destruct Hgate as [_ (id & Hid & _)]. rewrite process_run by (by rewrite Hid).
  by rewrite Hname, Hcolor.
Qed.

Lemma gate_closed h st cfg pack art source :
  ¬ pack_supported st pack →
  applyCompendiumArt h st cfg pack art source = (source, template h [packIdOf pack]).
Proof.
  intros Hno. rewrite handler_run.
  destruct (MAPPING_DATA_LOADED st) eqn:Hl; [|done]. cbn [andb].
  destruct (Set_has _ _) eqn:Hs; [|done].
  destruct Hno. split; [done|]. by apply Set_has_true.
Qed.

Lemma truthy_nonempty s : s ≠ [] → truthy (VStr s) = true.
Proof. intros H. cbn. by rewrite bool_decide_eq_false_2. Qed.

Lemma portrait_path_nonempty root name e : portrait_path root name e ≠ [].
Proof. unfold portrait_path. by destruct root. Qed.

Lemma str_nonempty_mid (x : jsstring) c l y : x ++ (c :: l) ++ y ≠ [].
Proof. by destruct x. Qed.

Create HintDb js discriminated.
#[local] Hint Resolve truthy_nonempty portrait_path_nonempty : js.

Lemma portrait_of_string art a :
  opt_get art "actor" = VStr a → a ≠ [] → portrait_of art = Some a.
Proof. intros Ha Hne. unfold portrait_of. rewrite Ha. by rewrite truthy_nonempty. Qed.

Lemma not_portrait art :
  is_string (opt_get art "actor") = false ∨ opt_get art "actor" = VStr [] →
  portrait_of art = None.
Proof.
  unfold portrait_of. intros [H| ->]; [|done]. by destruct (opt_get art "actor").
Qed.

Lemma bind_lift_normal {S A B} (a : A) (f : A → M S B) :
  bind (lift (Normal a)) f = f a.
Proof. reflexivity. Qed.

Lemma chosen_src_no_paths mode a : chosen_src mode a no_paths = (VStr a, false).
Proof.
  unfold chosen_src. destruct (strict_eq_str _ _); [done|].
  cbn [wildcardSrc circleSrc no_paths truthy]. by rewrite andb_false_r.
Qed.

Lemma chosen_src_wildcardsRings a p :
  truthy (wildcardSrc p) = true →
  chosen_src (VStr TOKEN_MODE.WILDCARDS_RINGS) a p = (wildcardSrc p, true).
Proof.
  intros H. unfold chosen_src.
  change (strict_eq_str (VStr TOKEN_MODE.WILDCARDS_RINGS) TOKEN_MODE.PORTRAIT_RINGS)
    with false.
  change (isWildcardMode (VStr TOKEN_MODE.WILDCARDS_RINGS)) with true.
  by rewrite H.
Qed.

Lemma chosen_src_circle a p :
  truthy (circleSrc p) = true →
  chosen_src (VStr TOKEN_MODE.CIRCLE) a p = (circleSrc p, false).
Proof.
  intros H. unfold chosen_src.
  change (strict_eq_str (VStr TOKEN_MODE.CIRCLE) TOKEN_MODE.PORTRAIT_RINGS) with false.
  change (isWildcardMode (VStr TOKEN_MODE.CIRCLE)) with false.
  by rewrite H.
Qed.

(** Every shape a document can have: token, texture, ring, colors and
    subject each present or missing. *)
Ltac split_source s :=
  destruct s as [? ? [[[[? ?]|] [[? ? [[? ?]|] [[? ?]|]]|] ? ? ?]|]].

(** Runs the assignments of the handler on a document of known shape. *)
Ltac hook_cbv :=
  cbv [apply_art apply_ring token_image bind ret lift modify
       ensure_token ensure_texture ensure_ring
       in_token in_texture in_ring in_colors in_subject
       set_img set_texture_src set_texture_fit set_randomImg set_width set_height
       set_ring_enabled set_ring_effects set_colors_ring set_colors_background
       set_subject_scale set_subject_texture
       name img prototypeToken texture ring randomImg width height src fit
       enabled effects colors subject colors_ring colors_background
       subject_scale subject_texture
       token_of texture_of ring_of colors_of subject_of default
       empty_token empty_texture empty_colors empty_subject default_ring bare_ring
       ring_written ring_complete].

Section Handler.
Context (cfg : settings) (art color : value).

(** The portrait step, by cases on the art descriptor. *)
Lemma apply_portrait_absent :
  portrait_of art = None → apply_portrait cfg art = ret tt.
Proof.
  unfold portrait_of, apply_portrait.
  destruct (opt_get art "actor"); try done. by destruct (truthy _).
Qed.

Lemma apply_portrait_present a p :
  portrait_of art = Some a →
  buildPathsFromActorImg a = Normal p →
  apply_portrait cfg art =
  token_image cfg a (chosen_src (tokenMode cfg) a p).1 (chosen_src (tokenMode cfg) a p).2.
Proof.
  unfold portrait_of, apply_portrait, token_image, chosen_src.
  destruct (opt_get art "actor") as [| | | |a'|]; try done.
  destruct (truthy (VStr a')); [|done]. intros [= ->] Hp.
  rewrite Hp, bind_lift_normal.
  destruct (strict_eq_str _ _); [reflexivity|].
  destruct (isWildcardMode _ && _); [reflexivity|].
  destruct (truthy (circleSrc p)); reflexivity.
Qed.

Lemma apply_portrait_throws a err :
  portrait_of art = Some a →
  buildPathsFromActorImg a = Throw err →
  apply_portrait cfg art = (set_img (VStr a) >> lift (Throw err)).
Proof.
  unfold portrait_of, apply_portrait.
  destruct (opt_get art "actor") as [| | | |a'|]; try done.
  destruct (truthy (VStr a')); [|done]. intros [= ->] Hp. by rewrite Hp.
Qed.

(** On a document whose ring is complete, with a portrait the deriver
    returns for, the writes complete and the six ring fields are
    written. *)
Lemma apply_art_complete source :
  ring_complete source = true → deriver_returns art = true →
  ∃ after,
    apply_art cfg art color source = (after, Normal tt) ∧
    ring_written (tokenMode cfg) color after.
Proof.
  intros Hring Hder. unfold deriver_returns in Hder. unfold apply_art.
  destruct (portrait_of art) as [a|] eqn:Hport.
  - destruct (buildPathsFromActorImg a) as [p|] eqn:Hp; [|done].
    rewrite (apply_portrait_present a p) by done.
    split_source source; try discriminate Hring;
      hook_cbv; (eexists; split; [reflexivity|]; repeat split; reflexivity).
  - rewrite apply_portrait_absent by done.
    split_source source; try discriminate Hring;
      hook_cbv; (eexists; split; [reflexivity|]; repeat split; reflexivity).
Qed.

(** What the portrait step leaves behind, whatever the ring step does
    afterwards. *)
Lemma apply_art_portrait a p source :
  portrait_of art = Some a →
  buildPathsFromActorImg a = Normal p →
  let after := (apply_art cfg art color source).1 in
  img after = VStr a ∧
  src (texture_of after) = (chosen_src (tokenMode cfg) a p).1 ∧
  randomImg (token_of after) = VBool (chosen_src (tokenMode cfg) a p).2 ∧
  width (token_of after) = tokenWidth cfg ∧
  height (token_of after) = tokenHeight cfg ∧
  fit (texture_of after) = imageFitMode cfg.
Proof.
  intros Hport Hp. unfold apply_art.
  rewrite (apply_portrait_present a p) by done.
  split_source source; hook_cbv; cbv [fst]; by repeat split.
Qed.

(** Without a portrait the image and token fields read as before. *)
Lemma apply_art_no_portrait source :
  portrait_of art = None →
  let after := (apply_art cfg art color source).1 in
  img after = img source ∧
  src (texture_of after) = src (texture_of source) ∧
  fit (texture_of after) = fit (texture_of source) ∧
  randomImg (token_of after) = randomImg (token_of source) ∧
  width (token_of after) = width (token_of source) ∧
  height (token_of after) = height (token_of source).
Proof.
  intros Hport. unfold apply_art. rewrite apply_portrait_absent by done.
  split_source source; hook_cbv; cbv [fst]; by repeat split.
Qed.

Lemma deriver_returns_portrait root name e :
  opt_get art "actor" = VStr (portrait_path root name e) →
  portrait_parts root name e → well_formed name = true →
  deriver_returns art = true.
Proof.
  intros Hactor Hparts Hwf. unfold deriver_returns.
  rewrite (portrait_of_string art _ Hactor) by auto with js.
  by destruct (buildPaths_returns root name e Hparts Hwf) as (enc & _ & ->).
Qed.
End Handler.

Ltac solve_gate :=
  split; [reflexivity|]; eexists; split; [reflexivity|]; vm_compute; reflexivity.

(** ** The handler: specified behaviour *)

(** C2 (amended).  For every input path that is not in the portraits
    convention (not of the form root/portraits/name.ext as the pattern
    reads it) the path deriver returns the empty object, no wildcardSrc
    and no circleSrc; and when that path is non-empty, the handler
    passes its gate with it under art.actor, the name of the document
    converts to a string and the ring colour setting normalises, the
    handler sets the token texture source to the portrait path itself
    and randomImg to false, in every mode, portraitRings included.  On a
    document whose ring is complete the handler also completes
    normally. *)
Theorem fallback_to_portrait h st cfg pack art source actor color :
  ¬ portrait_convention actor →
  buildPathsFromActorImg actor = Normal no_paths ∧
  (pack_supported st pack → opt_get art "actor" = VStr actor → actor ≠ [] →
   name_converts source = true → ringColorOf h cfg = Normal color →
   let after := applyCompendiumArt h st cfg pack art source in
   src (texture_of after.1) = VStr actor ∧
   randomImg (token_of after.1) = VBool false ∧
   (ring_complete source = true → after.2 = Normal tt)).
Proof.
  intros Hno. pose proof (buildPaths_no_match actor Hno) as Hp. split; [done|].
  intros Hgate Hactor Hne Hname Hcolor. rewrite (gate_runs _ _ _ _ _ _ color) by done.
  pose proof (portrait_of_string art actor Hactor Hne) as Hport.
  destruct (apply_art_portrait cfg art color actor no_paths source Hport Hp)
    as (_ & Hsrc & Hrnd & _).
  rewrite chosen_src_no_paths in Hsrc, Hrnd. cbv zeta. split; [done|]. split; [done|].
  intros Hring. destruct (apply_art_complete cfg art color source Hring) as (s' & Hs' & _).
  - unfold deriver_returns. by rewrite Hport, Hp.
  - by rewrite Hs'.
Qed.

Lemma fallback_to_portrait_witness :
  buildPathsFromActorImg (str "img/bear.png") = Normal no_paths ∧
  let after := applyCompendiumArt ex_host ex_state (ex_settings TOKEN_MODE.CIRCLE) ex_pack
                 (ex_art (str "img/bear.png")) (ex_source None) in
  src (texture_of after.1) = VStr (str "img/bear.png") ∧
  randomImg (token_of after.1) = VBool false ∧
  (ring_complete (ex_source None) = true → after.2 = Normal tt).
Proof.
  destruct (fallback_to_portrait ex_host ex_state (ex_settings TOKEN_MODE.CIRCLE) ex_pack
              (ex_art (str "img/bear.png")) (ex_source None) (str "img/bear.png")
              (VStr (str "#8f0000")))
    as [H1 H2].
  - apply no_convention_by_exec. vm_compute. reflexivity.
  - split; [exact H1|]. apply H2.
    + solve_gate.
    + reflexivity.
    + intros H; vm_compute in H; discriminate H.
    + reflexivity.
    + reflexivity.
Defined.

(** C2 as stated fails on the empty path, and wherever the handler does
    not reach its portrait step.  The empty string is not in the
    convention and the deriver returns the empty object on it, yet with
    it under art.actor the handler, past its gate and in mode circle,
    completes without touching the token texture source, which stays the
    icon it was rather than the empty path.  On a pack outside the
    supported set the path img/bear.png, not in the convention either,
    is never written to the token texture source.  And past the gate the
    same path is not written either when the handler throws before its
    writes: on a document whose name is an object with an own toString
    property (the literal of line 208), and on a ring colour setting
    that is such an object and has no CSS form (line 217). *)
Lemma fallback_counterexample :
  (¬ portrait_convention [] ∧
   buildPathsFromActorImg [] = Normal no_paths ∧
   pack_supported ex_state ex_pack ∧
   let after := applyCompendiumArt ex_host ex_state (ex_settings TOKEN_MODE.CIRCLE)
                  ex_pack (ex_art []) (ex_source None) in
   after.2 = Normal tt ∧
   src (texture_of after.1) = VStr (str "icons/svg/mystery-man.svg")) ∧
  (¬ portrait_convention (str "img/bear.png") ∧
   let after := applyCompendiumArt ex_host ex_state (ex_settings TOKEN_MODE.CIRCLE)
                  (VObj [(str "collection", VStr (str "world.heroes"))])
                  (ex_art (str "img/bear.png")) (ex_source None) in
   after.2 = Normal tt ∧
   src (texture_of after.1) = VStr (str "icons/svg/mystery-man.svg")) ∧
  (let after := applyCompendiumArt ex_host ex_state (ex_settings TOKEN_MODE.CIRCLE)
                  ex_pack (ex_art (str "img/bear.png")) ex_unnamed in
   after.2 = Throw TypeError ∧
   src (texture_of after.1) = VUndefined) ∧
  (let after := applyCompendiumArt ex_host ex_state
                  (ex_settings_unprintable TOKEN_MODE.CIRCLE)
                  ex_pack (ex_art (str "img/bear.png")) (ex_source None) in
   after.2 = Throw TypeError ∧
   src (texture_of after.1) = VStr (str "icons/svg/mystery-man.svg")).
Proof.
  split; [|split; [|split]].
  - split; [by apply no_convention_by_exec|]. split; [reflexivity|].
    split; [solve_gate|]. vm_compute. by split.
  - split; [by apply no_convention_by_exec|]. vm_compute. by split.
  - vm_compute. by split.
  - vm_compute. by split.
Qed.

(** C3 (amended).  For every supported pack and every portrait path
    root/portraits/name.e of the convention whose base name holds no
    unpaired surrogate, when the configured mode is wildcardsRings, the
    name of the document converts to a string, the ring colour setting
    normalises, and the ring object of the document, if it has one,
    carries its colors and subject objects, the handler completes and
    leaves the document with prototypeToken.randomImg = true,
    ring.enabled = true, ring.subject.scale = 0.8 and the token texture
    source set to the derived wildcard path
    root/tokens/<percent-encoded name>*.e. *)
Theorem wildcardsRings_document h st cfg pack art source root name e color :
  pack_supported st pack →
  tokenMode cfg = VStr TOKEN_MODE.WILDCARDS_RINGS →
  opt_get art "actor" = VStr (portrait_path root name e) →
  portrait_parts root name e →
  well_formed name = true →
  name_converts source = true →
  ringColorOf h cfg = Normal color →
  ring_complete source = true →
  ∃ enc after,
    encodeURIComponent name = Normal enc ∧
    applyCompendiumArt h st cfg pack art source = (after, Normal tt) ∧
    randomImg (token_of after) = VBool true ∧
    enabled (ring_of after) = VBool true ∧
    subject_scale (subject_of after) = VNum 0.8 ∧
    src (texture_of after) = VStr (root ++ str "/tokens/" ++ enc ++ str "*" ++ DOT :: e).
Proof.
  intros Hgate Hmode Hactor Hparts Hwf Hname Hcolor Hring.
  rewrite (gate_runs _ _ _ _ _ _ color) by done.
  destruct (buildPaths_returns root name e Hparts Hwf) as (enc & Henc & Hp).
  pose proof (portrait_of_string art _ Hactor (portrait_path_nonempty _ _ _)) as Hport.
  destruct (apply_art_complete cfg art color source Hring) as (after & Hafter & Hw);
    [by eapply deriver_returns_portrait|].
  pose proof (apply_art_portrait cfg art color _ _ source Hport Hp) as (_ & Hsrc & Hrnd & _).
  rewrite Hafter, Hmode in Hsrc, Hrnd. cbn [fst] in Hsrc, Hrnd.
  rewrite chosen_src_wildcardsRings in Hsrc, Hrnd by (cbn [wildcardSrc]; apply truthy_nonempty, str_nonempty_mid).
  destruct Hw as (Hen & _ & _ & _ & Hscale & _). rewrite Hmode in Hen, Hscale.
  exists enc, after. split; [done|]. split; [done|]. split; [exact Hrnd|].
  split; [exact Hen|]. split; [exact Hscale|exact Hsrc].
Qed.

Lemma wildcardsRings_document_witness :
  ∃ enc after,
    encodeURIComponent (str "Cult Adept") = Normal enc ∧
    applyCompendiumArt ex_host ex_state (ex_settings TOKEN_MODE.WILDCARDS_RINGS) ex_pack
      (ex_art (portrait_path (str "modules/art") (str "Cult Adept") (str "webp")))
      (ex_source None) = (after, Normal tt) ∧
    randomImg (token_of after) = VBool true ∧
    enabled (ring_of after) = VBool true ∧
    subject_scale (subject_of after) = VNum 0.8 ∧
    src (texture_of after) =
      VStr (str "modules/art" ++ str "/tokens/" ++ enc ++ str "*" ++ DOT :: str "webp").
Proof.
  apply (wildcardsRings_document ex_host ex_state (ex_settings TOKEN_MODE.WILDCARDS_RINGS)
           ex_pack _ _ _ _ _ (VStr (str "#8f0000")));
    [solve_gate|reflexivity|reflexivity|solve_parts|reflexivity|reflexivity|reflexivity
    |reflexivity].
Defined.

(** C3 as stated fails on the supported pack, in mode wildcardsRings.
    The portrait modules/art/portraits/<U+D83D>.webp is in the
    convention, yet encodeURIComponent throws a URIError on its base
    name, and randomImg stays false and the scale unwritten.  On the
    portrait modules/art/portraits/Cult Adept.webp, a document whose
    ring object has colors but no subject makes the write of
    ring.subject.scale throw a TypeError, the scale left unwritten; a
    document whose name is an object with an own toString property
    makes the literal of line 208 throw a TypeError before any write;
    and so does, on line 217, a ring colour setting that is such an
    object and has no CSS form. *)
Lemma wildcardsRings_counterexample :
  pack_supported ex_state ex_pack ∧
  (let after :=
     applyCompendiumArt ex_host ex_state (ex_settings TOKEN_MODE.WILDCARDS_RINGS) ex_pack
       (ex_art (portrait_path (str "modules/art") [55357%N] (str "webp")))
       (ex_source None) in
   after.2 = Throw URIError ∧
   randomImg (token_of after.1) = VBool false ∧
   subject_scale (subject_of after.1) = VUndefined) ∧
  (let after :=
     applyCompendiumArt ex_host ex_state (ex_settings TOKEN_MODE.WILDCARDS_RINGS) ex_pack
       (ex_art (portrait_path (str "modules/art") (str "Cult Adept") (str "webp")))
       (ex_source (Some (ex_ring (Some ex_colors) None))) in
   after.2 = Throw TypeError ∧
   subject_scale (subject_of after.1) = VUndefined) ∧
  (let after :=
     applyCompendiumArt ex_host ex_state (ex_settings TOKEN_MODE.WILDCARDS_RINGS) ex_pack
       (ex_art (portrait_path (str "modules/art") (str "Cult Adept") (str "webp")))
       ex_unnamed in
   after = (ex_unnamed, Throw TypeError) ∧
   randomImg (token_of after.1) = VUndefined) ∧
  (let after :=
     applyCompendiumArt ex_host ex_state
       (ex_settings_unprintable TOKEN_MODE.WILDCARDS_RINGS) ex_pack
       (ex_art (portrait_path (str "modules/art") (str "Cult Adept") (str "webp")))
       (ex_source None) in
   after = (ex_source None, Throw TypeError) ∧
   randomImg (token_of after.1) = VBool false).
Proof. split; [solve_gate|]. repeat split; vm_compute; reflexivity. Qed.

(** C4 (amended).  For every supported pack and every portrait path
    root/portraits/name.e of the convention whose base name holds no
    unpaired surrogate, when the configured mode is circle, the name of
    the document converts to a string, the ring colour setting
    normalises, and the ring object of the document, if it has one,
    carries its colors and subject objects, the handler completes and
    leaves the document with prototypeToken.randomImg = false,
    ring.enabled = false, ring.colors.ring = null,
    ring.subject.scale = 1.0 and the token texture source set to the
    derived circle path root/circle/name.e. *)
Theorem circle_document h st cfg pack art source root name e color :
  pack_supported st pack →
  tokenMode cfg = VStr TOKEN_MODE.CIRCLE →
  opt_get art "actor" = VStr (portrait_path root name e) →
  portrait_parts root name e →
  well_formed name = true →
  name_converts source = true →
  ringColorOf h cfg = Normal color →
  ring_complete source = true →
  ∃ after,
    applyCompendiumArt h st cfg pack art source = (after, Normal tt) ∧
    randomImg (token_of after) = VBool false ∧
    enabled (ring_of after) = VBool false ∧
    colors_ring (colors_of after) = VNull ∧
    subject_scale (subject_of after) = VNum 1.0 ∧
    src (texture_of after) = VStr (root ++ str "/circle/" ++ name ++ DOT :: e).
Proof.
  intros Hgate Hmode Hactor Hparts Hwf Hname Hcolor Hring.
  rewrite (gate_runs _ _ _ _ _ _ color) by done.
  destruct (buildPaths_returns root name e Hparts Hwf) as (enc & Henc & Hp).
  pose proof (portrait_of_string art _ Hactor (portrait_path_nonempty _ _ _)) as Hport.
  destruct (apply_art_complete cfg art color source Hring) as (after & Hafter & Hw);
    [by eapply deriver_returns_portrait|].
  pose proof (apply_art_portrait cfg art color _ _ source Hport Hp) as (_ & Hsrc & Hrnd & _).
  rewrite Hafter, Hmode in Hsrc, Hrnd. cbn [fst] in Hsrc, Hrnd.
  rewrite chosen_src_circle in Hsrc, Hrnd by (cbn [circleSrc]; apply truthy_nonempty, str_nonempty_mid).
  destruct Hw as (Hen & _ & Hcol & _ & Hscale & _). rewrite Hmode in Hen, Hcol, Hscale.
  exists after. split; [done|]. split; [exact Hrnd|].
  split; [exact Hen|]. split; [exact Hcol|]. split; [exact Hscale|exact Hsrc].
Qed.

Lemma circle_document_witness :
  ∃ after,
    applyCompendiumArt ex_host ex_state (ex_settings TOKEN_MODE.CIRCLE) ex_pack
      (ex_art (portrait_path (str "modules/art") (str "Cult Adept") (str "webp")))
      (ex_source (Some (ex_ring (Some ex_colors) (Some ex_subject)))) =
      (after, Normal tt) ∧
    randomImg (token_of after) = VBool false ∧
    enabled (ring_of after) = VBool false ∧
    colors_ring (colors_of after) = VNull ∧
    subject_scale (subject_of after) = VNum 1.0 ∧
    src (texture_of after) =
      VStr (str "modules/art" ++ str "/circle/" ++ str "Cult Adept" ++ DOT :: str "webp").
Proof.
  apply (circle_document ex_host ex_state (ex_settings TOKEN_MODE.CIRCLE)
           ex_pack _ _ _ _ _ (VStr (str "#8f0000")));
    [solve_gate|reflexivity|reflexivity|solve_parts|reflexivity|reflexivity|reflexivity
    |reflexivity].
Defined.

(** C4 as stated fails on the supported pack, in mode circle.  The
    portrait modules/art/portraits/Owl<U+DE00>.png is in the convention,
    yet the deriver throws a URIError while building the wildcard path
    the mode does not use, and the token source and the ring stay as
    they were.  On the portrait modules/art/portraits/Cult Adept.webp, a
    document whose ring object has a subject but no colors makes the
    write of ring.colors.ring throw a TypeError, ring.colors.ring left
    unwritten; a document whose name is an object with an own toString
    property makes the literal of line 208 throw a TypeError before any
    write; and so does, on line 217, a ring colour setting that is such
    an object and has no CSS form. *)
Lemma circle_counterexample :
  pack_supported ex_state ex_pack ∧
  (let after :=
     applyCompendiumArt ex_host ex_state (ex_settings TOKEN_MODE.CIRCLE) ex_pack
       (ex_art (portrait_path (str "modules/art") (str "Owl" ++ [56832%N]) (str "png")))
       (ex_source (Some (ex_ring (Some ex_colors) (Some ex_subject)))) in
   after.2 = Throw URIError ∧
   src (texture_of after.1) = VStr (str "icons/svg/mystery-man.svg") ∧
   effects (ring_of after.1) = VNum 0) ∧
  (let after :=
     applyCompendiumArt ex_host ex_state (ex_settings TOKEN_MODE.CIRCLE) ex_pack
       (ex_art (portrait_path (str "modules/art") (str "Cult Adept") (str "webp")))
       (ex_source (Some (ex_ring None (Some ex_subject)))) in
   after.2 = Throw TypeError ∧
   colors (ring_of after.1) = None ∧
   colors_ring (colors_of after.1) = VUndefined) ∧
  (let after :=
     applyCompendiumArt ex_host ex_state (ex_settings TOKEN_MODE.CIRCLE) ex_pack
       (ex_art (portrait_path (str "modules/art") (str "Cult Adept") (str "webp")))
       ex_unnamed in
   after = (ex_unnamed, Throw TypeError) ∧
   src (texture_of after.1) = VUndefined) ∧
  (let after :=
     applyCompendiumArt ex_host ex_state (ex_settings_unprintable TOKEN_MODE.CIRCLE) ex_pack
       (ex_art (portrait_path (str "modules/art") (str "Cult Adept") (str "webp")))
       (ex_source None) in
   after = (ex_source None, Throw TypeError) ∧
   src (texture_of after.1) = VStr (str "icons/svg/mystery-man.svg")).
Proof. split; [solve_gate|]. repeat split; vm_compute; reflexivity. Qed.

(** C5.  For every invocation of the handler in which the pack
    identifier is not a member of the preloaded supported-pack set, or in
    which the loaded flag is false, the handler performs no mutation:
    the document is exactly the one passed in, however the handler
    completes; and it completes normally when the identifier converts to
    a string. *)
Theorem unsupported_pack_untouched h st cfg pack art source :
  (∀ id, packIdOf pack = VStr id → id ∉ SUPPORTED_PACKS st) ∨
  MAPPING_DATA_LOADED st = false →
  let after := applyCompendiumArt h st cfg pack art source in
  after.1 = source ∧
  (convertible (packIdOf pack) = true → after.2 = Normal tt).
Proof.
  intros Hclosed. cbv zeta. rewrite gate_closed.
  - split; [reflexivity|]. intros Hid. cbn [snd].
    rewrite template_convertible. cbn [forallb]. by rewrite Hid.
  - intros [Hloaded (id & Hid & Hin)].
    destruct Hclosed as [Hout|Hnot]; [by eapply Hout|congruence].
Qed.

Lemma unsupported_pack_untouched_witness :
  let pack := VObj [(str "collection", VStr (str "world.heroes"))] in
  let after := applyCompendiumArt ex_host ex_state (ex_settings TOKEN_MODE.WILDCARDS_RINGS)
                 pack
                 (ex_art (portrait_path (str "modules/art") (str "Cult Adept") (str "webp")))
                 (ex_source None) in
  after.1 = ex_source None ∧
  (convertible (packIdOf pack) = true → after.2 = Normal tt).
Proof.
  apply (unsupported_pack_untouched ex_host ex_state
           (ex_settings TOKEN_MODE.WILDCARDS_RINGS)).
  left. intros id [= <-] Hin. vm_compute in Hin. discriminate Hin.
Defined.

(** C7 (amended).  For every invocation of the handler that passes the
    supported-pack and loaded gate, whether or not the art descriptor
    carries a portrait, provided that the name of the document converts
    to a string, that the ring colour setting normalises to a colour,
    that the ring object of the document, if it has one, carries its
    colors and subject objects and that the path deriver returns for the
    portrait (its base name holds no unpaired surrogate), the handler
    completes and sets all six ring fields: ring.enabled to whether the
    mode is a rings mode, ring.effects to 1, ring.colors.ring to the
    normalised colour when rings are enabled and to null otherwise,
    ring.colors.background to null, ring.subject.scale to 0.8 when rings
    are enabled and to 1.0 otherwise, and ring.subject.texture to
    null. *)
Theorem ring_fields_written h st cfg pack art source color :
  pack_supported st pack →
  name_converts source = true →
  ringColorOf h cfg = Normal color →
  ring_complete source = true →
  deriver_returns art = true →
  ∃ after,
    applyCompendiumArt h st cfg pack art source = (after, Normal tt) ∧
    ring_written (tokenMode cfg) color after.
Proof.
  intros Hgate Hname Hcolor Hring Hder. rewrite (gate_runs _ _ _ _ _ _ color) by done.
  by apply apply_art_complete.
Qed.

Lemma ring_fields_written_witness :
  ∃ after,
    applyCompendiumArt ex_host ex_state (ex_settings TOKEN_MODE.PORTRAIT_RINGS) ex_pack
      (VObj []) (ex_source None) = (after, Normal tt) ∧
    ring_written (VStr TOKEN_MODE.PORTRAIT_RINGS) (VStr (str "#8f0000")) after.
Proof.
  apply (ring_fields_written ex_host ex_state (ex_settings TOKEN_MODE.PORTRAIT_RINGS));
    [solve_gate|reflexivity|reflexivity|reflexivity|reflexivity].
Defined.

(** C7 as stated fails on invocations that pass the gate, in mode
    circleRings.  On the portrait modules/art/portraits/<U+D83D>.webp
    the deriver throws a URIError before any ring field is written.
    Without a portrait, a document whose ring object has a subject but
    no colors: the handler writes ring.enabled and ring.effects, then
    throws a TypeError on ring.colors.ring, and the scale stays 1 where
    rings are enabled.  A document whose name is an object with an own
    toString property makes the literal of line 208 throw a TypeError
    before any write, and so does, on line 217, a ring colour setting
    that is such an object and has no CSS form. *)
Lemma ring_fields_counterexample :
  pack_supported ex_state ex_pack ∧
  hasRings (VStr TOKEN_MODE.CIRCLE_RINGS) = true ∧
  (let after :=
     applyCompendiumArt ex_host ex_state (ex_settings TOKEN_MODE.CIRCLE_RINGS) ex_pack
       (ex_art (portrait_path (str "modules/art") [55357%N] (str "webp")))
       (ex_source (Some (ex_ring (Some ex_colors) (Some ex_subject)))) in
   after.2 = Throw URIError ∧
   enabled (ring_of after.1) = VBool false ∧
   effects (ring_of after.1) = VNum 0 ∧
   subject_scale (subject_of after.1) = VNum 1) ∧
  (let after :=
     applyCompendiumArt ex_host ex_state (ex_settings TOKEN_MODE.CIRCLE_RINGS) ex_pack
       (VObj []) (ex_source (Some (ex_ring None (Some ex_subject)))) in
   after.2 = Throw TypeError ∧
   enabled (ring_of after.1) = VBool true ∧
   effects (ring_of after.1) = VNum 1 ∧
   colors (ring_of after.1) = None ∧
   subject_scale (subject_of after.1) = VNum 1) ∧
  (let after :=
     applyCompendiumArt ex_host ex_state (ex_settings TOKEN_MODE.CIRCLE_RINGS) ex_pack
       (VObj []) ex_unnamed in
   after = (ex_unnamed, Throw TypeError) ∧
   enabled (ring_of after.1) = VUndefined) ∧
  (let after :=
     applyCompendiumArt ex_host ex_state (ex_settings_unprintable TOKEN_MODE.CIRCLE_RINGS)
       ex_pack (VObj []) (ex_source (Some (ex_ring (Some ex_colors) (Some ex_subject)))) in
   after.2 = Throw TypeError ∧
   enabled (ring_of after.1) = VBool false ∧
   colors_ring (colors_of after.1) = VNull).
Proof. split; [solve_gate|]. split; [reflexivity|]. repeat split; vm_compute; reflexivity. Qed.

(** C10.  The handler at the failing input of the claim.  On the
    supported pack, in mode wildcards, with actor null, a document whose
    name is a string and whose ring object has colors but no subject
    passes the gate; the image and token fields read as before, the
    handler writes ring.enabled, ring.effects and the two colour fields,
    then throws a TypeError on ring.subject.scale: the two subject
    fields, which the claim has written, are never written.  The default
    of line 222 gives a ring its colors and subject only when the
    document has no ring at all. *)
Theorem no_portrait_partial_ring :
  let source := ex_source (Some (ex_ring (Some ex_colors) None)) in
  let after :=
    applyCompendiumArt ex_host ex_state (ex_settings TOKEN_MODE.WILDCARDS) ex_pack
      (VObj [(str "actor", VNull)]) source in
  pack_supported ex_state ex_pack ∧
  is_string (opt_get (VObj [(str "actor", VNull)]) "actor") = false ∧
  (img after.1 = img source ∧
   src (texture_of after.1) = src (texture_of source) ∧
   fit (texture_of after.1) = fit (texture_of source) ∧
   randomImg (token_of after.1) = randomImg (token_of source) ∧
   width (token_of after.1) = width (token_of source) ∧
   height (token_of after.1) = height (token_of source)) ∧
  after.2 = Throw TypeError ∧
  (enabled (ring_of after.1) = VBool false ∧
   effects (ring_of after.1) = VNum 1 ∧
   colors_ring (colors_of after.1) = VNull ∧
   colors_background (colors_of after.1) = VNull) ∧
  subject (ring_of after.1) = None ∧
  subject_scale (subject_of after.1) = VUndefined ∧
  subject_texture (subject_of after.1) = VUndefined.
Proof. cbv zeta. split; [solve_gate|]. split; [reflexivity|]. vm_compute. repeat split. Qed.

(** ** The preloader *)

Lemma for_of_packs_add ks st :
  for_of ks packs_add st =
  ({| SUPPORTED_PACKS := list_to_set ks ∪ SUPPORTED_PACKS st;
      MAPPING_DATA_LOADED := MAPPING_DATA_LOADED st |}, Normal tt).
Proof.
  revert st. induction ks as [|k ks IH]; intros [packs loaded].
  - cbn. by rewrite (left_id_L ∅ (∪)).
  - cbn [for_of]. unfold bind at 1.
    cbn [packs_add modify SUPPORTED_PACKS MAPPING_DATA_LOADED].
    rewrite IH. cbn [SUPPORTED_PACKS MAPPING_DATA_LOADED list_to_set].
    f_equal. f_equal.
    rewrite (assoc_L (∪)). f_equal. apply (comm_L (∪)).
Qed.

(** One pass of the loop adds the keys of the entry, and never throws:
    the try block catches the rejected fetch, the body that does not
    parse and the keys of null. *)
Lemma load_mapping_spec fetch config st :
  load_mapping fetch config st =
  ({| SUPPORTED_PACKS := keys_of_mapping fetch config ∪ SUPPORTED_PACKS st;
      MAPPING_DATA_LOADED := MAPPING_DATA_LOADED st |}, Normal tt).
Proof.
  assert (∀ P : gset jsstring, ∅ ∪ P = P) as Hid by (intros; apply (left_id_L ∅ (∪))).
  destruct st as [packs loaded]. unfold load_mapping, keys_of_mapping.
  cbn [SUPPORTED_PACKS MAPPING_DATA_LOADED].
  destruct (opt_get config "mapping") as [| |b|x|url|props]; cbn [truthy is_string];
    rewrite ?andb_false_r, ?Hid; try reflexivity.
  destruct (bool_decide (url = [])); cbn [negb andb]; rewrite ?Hid; [reflexivity|].
  unfold try_catch, bind, lift, ret.
  destruct (fetch (VStr url)) as [r|err]; rewrite ?Hid; [|reflexivity].
  destruct (ok r); rewrite ?Hid; [|reflexivity].
  destruct (json r) as [data|err]; rewrite ?Hid; [|reflexivity].
  destruct (Object_keys data) as [ks|err]; rewrite ?Hid; [|reflexivity].
  by rewrite for_of_packs_add.
Qed.

Lemma for_of_load_mapping fetch (entries : list (jsstring * value)) st :
  for_of entries (fun entry => load_mapping fetch (snd entry)) st =
  ({| SUPPORTED_PACKS :=
        ⋃ (map (fun entry => keys_of_mapping fetch (snd entry)) entries) ∪
        SUPPORTED_PACKS st;
      MAPPING_DATA_LOADED := MAPPING_DATA_LOADED st |}, Normal tt).
Proof.
  revert st. induction entries as [|entry entries IH]; intros [packs loaded].
  - cbn. by rewrite (left_id_L ∅ (∪)).
  - cbn [for_of]. unfold bind at 1. rewrite load_mapping_spec, IH.
    cbn [SUPPORTED_PACKS MAPPING_DATA_LOADED map union_list foldr].
    f_equal. f_equal.
    rewrite (assoc_L (∪)). f_equal. apply (comm_L (∪)).
Qed.

Lemma entries_configured module :
  Object_entries
    (logical_or (opt_get (opt_get module "flags") "compendiumArtMappings") (VObj [])) =
  Normal (configured module).
Proof.
  unfold configured, logical_or.
  destruct (opt_get (opt_get module "flags") "compendiumArtMappings") as [| |[]|x|s|props];
    cbn [truthy]; try reflexivity.
  - by destruct (negb _).
  - by destruct (negb _).
Qed.

Lemma preload_spec fetch module st :
  preloadMappingData fetch module st =
  ({| SUPPORTED_PACKS := supported_union fetch module; MAPPING_DATA_LOADED := true |},
   Normal tt).
Proof.
  unfold preloadMappingData. rewrite entries_configured.
  unfold bind at 1. cbn [packs_clear modify]. rewrite bind_lift_normal.
  unfold bind. rewrite for_of_load_mapping. cbn [set_loaded modify SUPPORTED_PACKS].
  unfold supported_union. by rewrite (right_id_L ∅ (∪)).
Qed.

Lemma keys_of_failed fetch url :
  fetch_fails fetch url → keys_of_mapping fetch (VObj [(str "mapping", VStr url)]) = ∅.
Proof.
  unfold fetch_fails, keys_of_mapping.
  change (opt_get (VObj [(str "mapping", VStr url)]) "mapping") with (VStr url).
  cbv beta iota. case_bool_decide; [done|].
  destruct (fetch (VStr url)) as [r|]; [|done].
  intros [->|[e ->]]; [done|]. by destruct (ok r).
Qed.

Lemma keys_of_loaded fetch url code packA packB vA vB :
  url ≠ [] →
  fetch (VStr url) =
    Normal {| ok := true; status := code;
              json := Normal (VObj [(packA, vA); (packB, vB)]) |} →
  keys_of_mapping fetch (VObj [(str "mapping", VStr url)]) = {[ packA; packB ]}.
Proof.
  intros Hne Hf. unfold keys_of_mapping.
  change (opt_get (VObj [(str "mapping", VStr url)]) "mapping") with (VStr url).
  cbv beta iota. rewrite bool_decide_eq_false_2 by done. rewrite Hf.
  cbn [ok json Object_keys Object_entries map fst list_to_set].
  by rewrite (right_id_L ∅ (∪)).
Qed.

(** C6.  The mapping preloader isolates per-entry failures.  Whatever
    the manifest, the network and the cache before, preloading completes
    without a thrown error, sets the loaded flag, and leaves as
    supported-pack set the union of the top-level keys of every mapping
    file that was fetched and parsed.  In particular, for two configured
    entries, in either order, where fetching one fails (it is rejected,
    answered with a non-ok status such as 404, or its body does not
    parse) and the other yields the JSON object with top-level keys packA
    and packB, the set is exactly {packA, packB}. *)
Theorem preload_isolates_failures fetch module st :
  preloadMappingData fetch module st =
    ({| SUPPORTED_PACKS := supported_union fetch module; MAPPING_DATA_LOADED := true |},
     Normal tt) ∧
  ∀ sysA sysB bad good code packA packB vA vB,
    fetch_fails fetch bad →
    good ≠ [] →
    fetch (VStr good) =
      Normal {| ok := true; status := code;
                json := Normal (VObj [(packA, vA); (packB, vB)]) |} →
    preloadMappingData fetch (two_systems sysA sysB bad good) st =
      ({| SUPPORTED_PACKS := {[ packA; packB ]}; MAPPING_DATA_LOADED := true |},
       Normal tt) ∧
    preloadMappingData fetch (two_systems sysA sysB good bad) st =
      ({| SUPPORTED_PACKS := {[ packA; packB ]}; MAPPING_DATA_LOADED := true |},
       Normal tt).
Proof.
  split; [apply preload_spec|].
  intros sysA sysB bad good code packA packB vA vB Hbad Hne Hgood.
  rewrite !preload_spec. unfold supported_union.
  change (configured (two_systems sysA sysB bad good)) with
    [(sysA, VObj [(str "mapping", VStr bad)]); (sysB, VObj [(str "mapping", VStr good)])].
  change (configured (two_systems sysA sysB good bad)) with
    [(sysA, VObj [(str "mapping", VStr good)]); (sysB, VObj [(str "mapping", VStr bad)])].
  cbn [map union_list foldr snd].
  rewrite (keys_of_failed fetch bad) by done.
  rewrite (keys_of_loaded fetch good code packA packB vA vB) by done.
  by rewrite !(right_id_L ∅ (∪)), (left_id_L ∅ (∪)).
Qed.

Lemma preload_isolates_failures_witness :
  preloadMappingData ex_network
    (two_systems (str "gone") (str "daggerheart")
       (str "modules/art-for-daggerheart/map-gone.json")
       (str "modules/art-for-daggerheart/map-daggerheart.json")) initial_state =
  ({| SUPPORTED_PACKS := {[ str "packA"; str "packB" ]}; MAPPING_DATA_LOADED := true |},
   Normal tt).
Proof.
  refine (proj1 (proj2 (preload_isolates_failures ex_network (VObj []) initial_state)
            (str "gone") (str "daggerheart")
            (str "modules/art-for-daggerheart/map-gone.json")
            (str "modules/art-for-daggerheart/map-daggerheart.json")
            200%N (str "packA") (str "packB") (VNum 1) (VNum 2) _ _ _)).
  - left. reflexivity.
  - intros H; vm_compute in H; discriminate H.
  - reflexivity.
Defined.

(** ** The settings *)

Ltac solve_reload :=
  split;
  [ intros Hreq;
    first [ discriminate Hreq
          | split; intros Hkey; vm_compute in Hkey; discriminate Hkey ]
  | intros [Hdbg Hrot];
    first [ reflexivity | exfalso; first [by apply Hdbg | by apply Hrot] ] ].

(** C8.  What the code registers.  The module registers seven options
    under its own namespace, every one of them world-scoped, as the
    claim has it.  The first of them, tokenAutoRotate, is not the
    debug-logging flag and is registered without requiresReload, where
    the claim has it set: an option is registered with requiresReload
    set exactly when it is neither the debug-logging flag nor the
    auto-rotate flag. *)
Theorem registered_settings :
  map reg_key registered =
    [str "tokenAutoRotate"; str "debugLogging"; str "ringColor"; str "tokenMode";
     str "tokenWidth"; str "tokenHeight"; str "imageFitMode"] ∧
  Forall (fun r => reg_namespace r = MODULE_ID ∧
                   Setting.scope (reg_data r) = str "world") registered ∧
  Forall (fun r => Setting.requiresReload (reg_data r) = Some true ↔
                   reg_key r ≠ str "debugLogging" ∧
                   reg_key r ≠ str "tokenAutoRotate") registered ∧
  str "tokenAutoRotate" ≠ str "debugLogging" ∧
  Setting.requiresReload <$> setting_of (str "tokenAutoRotate") = Some None.
Proof.
  split; [reflexivity|].
  cbv [registered registerSettings settings_register bind modify fst app].
  split; [|split; [|split]].
  - repeat (apply Forall_cons; split; [by split|]). constructor.
  - repeat (apply Forall_cons; split; [solve_reload|]). constructor.
  - intros H; vm_compute in H; discriminate H.
  - by vm_compute.
Qed.

(** ** The pack identifier *)

(** C9.  For every pack passed to the handler, the identifier used for
    the support check is pack.metadata.id whenever that value is neither
    undefined nor null, and pack.collection otherwise (also when
    metadata itself is missing): once the mapping data is loaded, the
    handler goes past its gate when that identifier is a string of the
    supported set, and leaves the document as it was when it is not.  In
    particular, on a pack that carries both, metadata.id takes
    precedence over collection. *)
Theorem packId_prefers_metadata h st cfg pack art source :
  let metadata_id := opt_get (opt_get pack "metadata") "id" in
  let used :=
    match metadata_id with
    | VUndefined | VNull => opt_get pack "collection"
    | _ => metadata_id
    end in
  let supported := ∃ id, used = VStr id ∧ id ∈ SUPPORTED_PACKS st in
  packIdOf pack = used ∧
  (MAPPING_DATA_LOADED st = true ∧ supported →
   applyCompendiumArt h st cfg pack art source = process h cfg used art source) ∧
  (MAPPING_DATA_LOADED st = true ∧ ¬ supported →
   (applyCompendiumArt h st cfg pack art source).1 = source) ∧
  (∀ a b rest,
     packIdOf (VObj ((str "metadata", VObj [(str "id", VStr a)]) ::
                     (str "collection", VStr b) :: rest)) = VStr a).
Proof.
  cbv zeta.
  assert (packIdOf pack =
          match opt_get (opt_get pack "metadata") "id" with
          | VUndefined | VNull => opt_get pack "collection"
          | _ => opt_get (opt_get pack "metadata") "id"
          end) as Hused.
  { unfold packIdOf, coalesce. by destruct (opt_get (opt_get pack "metadata") "id"). }
  split; [exact Hused|]. rewrite <- Hused. split; [|split].
  - intros [Hloaded Hin]. by apply gate_open.
  - intros [Hloaded Hout]. rewrite gate_closed; [reflexivity|].
    intros [_ Hin]. by apply Hout.
  - intros a b rest. reflexivity.
Qed.

Lemma packId_prefers_metadata_witness :
  let pack := VObj [(str "metadata", VObj [(str "id", VNull)]);
                    (str "collection", VStr (str "daggerheart.adversaries"))] in
  applyCompendiumArt ex_host ex_state (ex_settings TOKEN_MODE.CIRCLE) pack
    (ex_art (str "img/bear.png")) (ex_source None) =
  process ex_host (ex_settings TOKEN_MODE.CIRCLE) (VStr (str "daggerheart.adversaries"))
    (ex_art (str "img/bear.png")) (ex_source None).
Proof.
  cbv zeta.
  refine (proj1 (proj2 (packId_prefers_metadata ex_host ex_state
            (ex_settings TOKEN_MODE.CIRCLE) _ _ _)) _).
  split; [reflexivity|]. eexists. split; [reflexivity|]. vm_compute. reflexivity.
Defined.

(** ** More on the path deriver *)

Lemma buildPaths_throws_URIError a err :
  buildPathsFromActorImg a = Throw err → err = URIError.
Proof.
  intros H. destruct (exec portraits_re 3 a) as [m|] eqn:Hm;
    [|unfold buildPathsFromActorImg in H; by rewrite Hm in H].
  apply exec_portraits_sound in Hm as (root & name & e & -> & Hparts).
  rewrite buildPaths_match in H by done.
  destruct (well_formed name) eqn:Hwf.
  - apply encodeURIComponent_total in Hwf as [enc Henc]. by rewrite Henc in H.
  - rewrite encodeURIComponent_throws in H by done. by injection H as <-.
Qed.

Lemma captures_of_match s m :
  exec portraits_re 3 s = Some m →
  ∃ root name e,
    portrait_parts root name e ∧
    s = portrait_path root name e ∧
    m = [Some s; Some root; Some name; Some (DOT :: e)].
Proof.
  intros H. destruct (exec_portraits_sound s m H) as (root & name & e & -> & Hparts).
  rewrite exec_portraits_match in H by done. injection H as <-.
  by exists root, name, e.
Qed.

(** X2.  When the pattern of the deriver matches, the match has exactly
    four entries: the whole input, then the root, the base name and the
    extension; and the input is the root, the literal /portraits/, the
    base name and the extension put back together. *)
Theorem exec_captures_reassemble s m :
  exec portraits_re 3 s = Some m →
  ∃ root baseName ext,
    m = [Some s; Some root; Some baseName; Some ext] ∧
    s = root ++ str "/portraits/" ++ baseName ++ ext.
Proof.
  intros H. destruct (captures_of_match s m H) as (root & name & e & _ & Hs & ->).
  exists root, name, (DOT :: e). split; [done|]. exact Hs.
Qed.

Lemma exec_captures_reassemble_witness :
  ∃ root baseName ext,
    [Some (str "a/portraits/b/portraits/c.d.png"); Some (str "a/portraits/b");
     Some (str "c.d"); Some (str ".png")] =
      [Some (str "a/portraits/b/portraits/c.d.png"); Some root; Some baseName; Some ext] ∧
    str "a/portraits/b/portraits/c.d.png" = root ++ str "/portraits/" ++ baseName ++ ext.
Proof.
  apply (exec_captures_reassemble (str "a/portraits/b/portraits/c.d.png")).
  vm_compute. reflexivity.
Defined.

(** X3.  A path is in the portraits convention in at most one way: the
    root, the base name and the extension are determined by the path
    (the root runs up to the last /portraits/ segment, the extension
    starts at the last dot). *)
Theorem portrait_split_unique root name e root' name' e' :
  portrait_parts root name e → portrait_parts root' name' e' →
  portrait_path root name e = portrait_path root' name' e' →
  root = root' ∧ name = name' ∧ e = e'.
Proof.
  intros H H' Heq.
  pose proof (exec_portraits_match root name e H) as Hm.
  rewrite Heq, exec_portraits_match in Hm by done.
  injection Hm as H1 H2 H3. by subst.
Qed.

Lemma portrait_split_unique_witness :
  str "a/portraits/b" = str "a/portraits/b" ∧ str "c.d" = str "c.d" ∧ str "png" = str "png".
Proof.
  apply portrait_split_unique; [solve_parts|solve_parts|reflexivity].
Defined.

(** X4.  The deriver is all or nothing.  Whenever it returns, either the
    input is outside the convention and the result is the empty object,
    or the input is root/portraits/name.e and the result carries all
    three properties; wildcardSrc and circleSrc are then non-empty
    strings, so the handler never takes its last branch on such a
    path. *)
Theorem buildPaths_all_or_nothing s p :
  buildPathsFromActorImg s = Normal p →
  p = no_paths ∧ ¬ portrait_convention s ∨
  ∃ root name e enc,
    s = portrait_path root name e ∧ portrait_parts root name e ∧
    encodeURIComponent name = Normal enc ∧
    p = {| wildcardSrc := VStr (root ++ str "/tokens/" ++ enc ++ str "*" ++ DOT :: e);
           circleSrc := VStr (root ++ str "/circle/" ++ name ++ DOT :: e);
           ext := VStr (DOT :: e) |} ∧
    truthy (wildcardSrc p) = true ∧ truthy (circleSrc p) = true.
Proof.
  intros H. destruct (exec portraits_re 3 s) as [m|] eqn:Hm.
  - right. apply exec_portraits_sound in Hm as (root & name & e & -> & Hparts).
    rewrite buildPaths_match in H by done.
    destruct (encodeURIComponent name) as [enc|] eqn:Henc; [|done].
    assert (Hp : {| wildcardSrc := VStr (root ++ str "/tokens/" ++ enc ++ str "*" ++ DOT :: e);
                    circleSrc := VStr (root ++ str "/circle/" ++ name ++ DOT :: e);
                    ext := VStr (DOT :: e) |} = p) by congruence.
    subst p. exists root, name, e, enc.
    split; [reflexivity|]. split; [exact Hparts|]. split; [exact Henc|].
    split; [reflexivity|].
    split; cbn [wildcardSrc circleSrc]; apply truthy_nonempty, str_nonempty_mid.
  - left. pose proof (no_convention_by_exec s Hm) as Hno.
    rewrite buildPaths_no_match in H by done. by injection H as <-.
Qed.

Lemma buildPaths_all_or_nothing_witness :
  no_paths = no_paths ∧ ¬ portrait_convention (str "portraits/bear.png") ∨
  ∃ root name e enc,
    str "portraits/bear.png" = portrait_path root name e ∧ portrait_parts root name e ∧
    encodeURIComponent name = Normal enc ∧
    no_paths =
      {| wildcardSrc := VStr (root ++ str "/tokens/" ++ enc ++ str "*" ++ DOT :: e);
         circleSrc := VStr (root ++ str "/circle/" ++ name ++ DOT :: e);
         ext := VStr (DOT :: e) |} ∧
    truthy (wildcardSrc no_paths) = true ∧ truthy (circleSrc no_paths) = true.
Proof. apply buildPaths_all_or_nothing. vm_compute. reflexivity. Defined.

(** ** More on the encoded base name *)
Lemma encode_unreserved s :
  forallb uriUnreserved s = true → encodeURIComponent s = Normal s.
Proof.
  induction s as [|c s IH]; [done|]. cbn [forallb]. intros [Hc Hs]%andb_true_iff.
  cbn [encodeURIComponent]. by rewrite Hc, IH.
Qed.


Lemma hex_digit_unreserved d : (d < 16)%N → uriUnreserved (hex_digit d) = true.
Proof.
  intros H. assert (d ∈ [0;1;2;3;4;5;6;7;8;9;10;11;12;13;14;15]%N) as Hd.
  { destruct d as [|p]; [set_solver|].
    do 4 (destruct p as [p|p|]; try (cbn in H; lia); try set_solver). }
  repeat (apply elem_of_cons in Hd as [->|Hd]; [by vm_compute|]). by apply elem_of_nil in Hd.
Qed.

Lemma lor_lt_256 a b : (a < 256)%N → (b < 256)%N → (N.lor a b < 256)%N.
Proof.
  intros Ha Hb. destruct (N.eq_dec (N.lor a b) 0%N) as [->|Hne]; [lia|].
  change 256%N with (2 ^ 8)%N. apply N.log2_lt_pow2; [lia|].
  rewrite N.log2_lor.
  assert (∀ x, (x < 256)%N → (N.log2 x < 8)%N) as Hlog.
  { intros x Hx. destruct (N.eq_dec x 0%N) as [->|Hx0]; [done|].
    apply N.log2_lt_pow2; [lia|]. exact Hx. }
  apply N.max_lub_lt; by apply Hlog.
Qed.

Lemma land_63 x : (N.land x 63 < 64)%N.
Proof. change 63%N with (N.ones 6). rewrite N.land_ones. by apply N.mod_lt. Qed.

Lemma land_15 x : (N.land x 15 < 16)%N.
Proof. change 15%N with (N.ones 4). rewrite N.land_ones. by apply N.mod_lt. Qed.

Lemma shiftr_lt x n k : (x < k * 2 ^ n)%N → (N.shiftr x n < k)%N.
Proof.
  intros H. rewrite N.shiftr_div_pow2.
  apply N.Div0.div_lt_upper_bound. lia.
Qed.

Lemma utf8_octets cp : (cp < 2097152)%N → Forall (fun b => (b < 256)%N) (utf8 cp).
Proof.
  intros Hcp. unfold utf8.
  pose proof (land_63 cp). pose proof (land_63 (N.shiftr cp 6)).
  pose proof (land_63 (N.shiftr cp 12)).
  destruct (N.ltb_spec cp 128); [repeat constructor; lia|].
  destruct (N.ltb_spec cp 2048).
  { repeat constructor; apply lor_lt_256; try lia.
    assert (N.shiftr cp 6 < 32)%N by (apply shiftr_lt; lia). lia. }
  destruct (N.ltb_spec cp 65536).
  { repeat constructor; apply lor_lt_256; try lia.
    assert (N.shiftr cp 12 < 16)%N by (apply shiftr_lt; lia). lia. }
  repeat constructor; apply lor_lt_256; try lia.
  assert (N.shiftr cp 18 < 8)%N by (apply shiftr_lt; lia). lia.
Qed.

Lemma pct_escaped b : (b < 256)%N → forallb escaped (pct b) = true.
Proof.
  intros Hb. unfold pct. cbn [forallb]. unfold escaped at 1.
  change (bool_decide (PERCENT = PERCENT)) with true. rewrite orb_true_r.
  unfold escaped. rewrite !hex_digit_unreserved; [done|apply land_15|].
  apply shiftr_lt. lia.
Qed.

Lemma pct_all_escaped octets :
  Forall (fun b => (b < 256)%N) octets → forallb escaped (pct_all octets) = true.
Proof.
  induction 1 as [|b octets Hb _ IH]; [done|].
  unfold pct_all. cbn [map concat]. rewrite forallb_app.
  rewrite pct_escaped by done. exact IH.
Qed.

Lemma surrogate_pair_bound c d :
  is_lead_surrogate c = true → is_trail_surrogate d = true →
  (surrogate_pair_to_code_point c d < 2097152)%N.
Proof.
  unfold is_lead_surrogate, is_trail_surrogate, in_range, surrogate_pair_to_code_point.
  intros [H1 H2]%andb_true_iff [H3 H4]%andb_true_iff.
  apply N.leb_le in H1, H2, H3, H4. lia.
Qed.

Lemma encode_escaped_aux n : ∀ s enc, length s ≤ n →
  code_units s → encodeURIComponent s = Normal enc → forallb escaped enc = true.
Proof.
  induction n as [|n IH]; intros s enc Hlen Hunits Henc.
  - destruct s; [|cbn in Hlen; lia]. cbn in Henc. by injection Henc as <-.
  - destruct s as [|c rest]; [cbn in Henc; by injection Henc as <-|].
    cbn in Hlen. apply Forall_cons in Hunits as [Hc Hrest].
    cbn [encodeURIComponent] in Henc.
    destruct (uriUnreserved c) eqn:Hu.
    + destruct (encodeURIComponent rest) as [r|] eqn:Hr; [|done].
      injection Henc as <-. cbn [forallb]. unfold escaped at 1. rewrite Hu.
      apply (IH rest r); [lia|done|done].
    + destruct (is_trail_surrogate c); [done|].
      destruct (is_lead_surrogate c) eqn:Hlead.
      * destruct rest as [|d rest']; [done|].
        destruct (is_trail_surrogate d) eqn:Htrail; [|done].
        destruct (encodeURIComponent rest') as [r|] eqn:Hr; [|done].
        injection Henc as <-. rewrite forallb_app.
        rewrite pct_all_escaped by (apply utf8_octets; by apply surrogate_pair_bound).
        apply Forall_cons in Hrest as [_ Hrest]. cbn in Hlen.
        apply (IH rest' r); [lia|done|done].
      * destruct (encodeURIComponent rest) as [r|] eqn:Hr; [|done].
        injection Henc as <-. rewrite forallb_app.
        rewrite pct_all_escaped by (apply utf8_octets; unfold code_unit in Hc; lia).
        apply (IH rest r); [lia|done|done].
Qed.

(** X5.  In the wildcard path of a portrait, the file name between
    /tokens/ and the star is made of unreserved characters (letters,
    digits and - _ . ! ~ * ' ( )) and percent signs only: no space, no
    slash, nothing outside ASCII. *)
Theorem wildcard_name_escaped root name e p :
  portrait_parts root name e → code_units name →
  buildPathsFromActorImg (portrait_path root name e) = Normal p →
  ∃ enc,
    wildcardSrc p = VStr (root ++ str "/tokens/" ++ enc ++ str "*" ++ DOT :: e) ∧
    forallb escaped enc = true.
Proof.
  intros Hparts Hunits H. rewrite buildPaths_match in H by done.
  destruct (encodeURIComponent name) as [enc|] eqn:Henc; [|done].
  exists enc. split; [by injection H as <-|].
  by eapply (encode_escaped_aux (length name) name).
Qed.

Lemma wildcard_name_escaped_witness :
  ∃ enc,
    wildcardSrc
      {| wildcardSrc := VStr (str "modules/art/tokens/Cult%20Adept*.webp");
         circleSrc := VStr (str "modules/art/circle/Cult Adept.webp");
         ext := VStr (str ".webp") |} =
      VStr (str "modules/art" ++ str "/tokens/" ++ enc ++ str "*" ++ DOT :: str "webp") ∧
    forallb escaped enc = true.
Proof.
  apply (wildcard_name_escaped (str "modules/art") (str "Cult Adept") (str "webp"));
    [solve_parts| |reflexivity].
  repeat constructor.
Defined.

(** X6.  A base name made of unreserved characters only goes into the
    wildcard path as it is; a star in the name in particular stays a
    star. *)
Theorem wildcard_of_plain_name root name e :
  portrait_parts root name e → forallb uriUnreserved name = true →
  buildPathsFromActorImg (portrait_path root name e) =
  Normal {| wildcardSrc := VStr (root ++ str "/tokens/" ++ name ++ str "*" ++ DOT :: e);
            circleSrc := VStr (root ++ str "/circle/" ++ name ++ DOT :: e);
            ext := VStr (DOT :: e) |}.
Proof.
  intros Hparts Hname. rewrite buildPaths_match by done. by rewrite encode_unreserved.
Qed.

Lemma wildcard_of_plain_name_witness :
  buildPathsFromActorImg (portrait_path (str "art") (str "Bear*(old)") (str "png")) =
  Normal {| wildcardSrc := VStr (str "art" ++ str "/tokens/" ++ str "Bear*(old)" ++ str "*" ++
                                 DOT :: str "png");
            circleSrc := VStr (str "art" ++ str "/circle/" ++ str "Bear*(old)" ++
                               DOT :: str "png");
            ext := VStr (DOT :: str "png") |}.
Proof. apply wildcard_of_plain_name; [solve_parts|reflexivity]. Defined.

(** ** More on the handler *)

Lemma mode_row_chosen mode a p :
  truthy (wildcardSrc p) = true → truthy (circleSrc p) = true →
  chosen_src mode a p =
  (match (mode_row mode).1.1 with
   | FromTokens => wildcardSrc p
   | FromCircle => circleSrc p
   | FromPortrait => VStr a
   end, (mode_row mode).1.2) ∧
  hasRings mode = (mode_row mode).2.
Proof.
  intros Hw Hc. unfold chosen_src, mode_row, isWildcardMode, hasRings. rewrite Hw, Hc.
  destruct mode as [| |b|x|s|props]; try (split; reflexivity).
  unfold strict_eq_str.
  destruct (decide (s = TOKEN_MODE.WILDCARDS)) as [->|H1]; [split; reflexivity|].
  destruct (decide (s = TOKEN_MODE.WILDCARDS_RINGS)) as [->|H2]; [split; reflexivity|].
  destruct (decide (s = TOKEN_MODE.CIRCLE)) as [->|H3]; [split; reflexivity|].
  destruct (decide (s = TOKEN_MODE.CIRCLE_RINGS)) as [->|H4]; [split; reflexivity|].
  destruct (decide (s = TOKEN_MODE.PORTRAIT_RINGS)) as [->|H5]; [split; reflexivity|].
  rewrite !bool_decide_eq_false_2 by done. split; reflexivity.
Qed.

(** X7.  The table of the five modes.  Past the gate, on a portrait of
    the convention whose base name encodes, a document whose name
    converts to a string and whose ring is complete, and a ring colour
    setting that normalises, the handler completes, sets the document
    image to the portrait, and sets the token source, randomImg and
    ring.enabled by the row of the mode: wildcards (tokens path, true,
    false), wildcardsRings (tokens path, true, true), circle (circle
    path, false, false), circleRings (circle path, false, true),
    portraitRings (the portrait, false, true); any other mode value
    behaves as circle. *)
Theorem mode_table h st cfg pack art source root name e enc color :
  pack_supported st pack →
  opt_get art "actor" = VStr (portrait_path root name e) →
  portrait_parts root name e →
  encodeURIComponent name = Normal enc →
  name_converts source = true →
  ringColorOf h cfg = Normal color →
  ring_complete source = true →
  ∃ after,
    applyCompendiumArt h st cfg pack art source = (after, Normal tt) ∧
    img after = VStr (portrait_path root name e) ∧
    src (texture_of after) =
      VStr (row_path (mode_row (tokenMode cfg)).1.1 root name enc e) ∧
    randomImg (token_of after) = VBool (mode_row (tokenMode cfg)).1.2 ∧
    enabled (ring_of after) = VBool (mode_row (tokenMode cfg)).2.
Proof.
  intros Hgate Hactor Hparts Henc Hname Hcolor Hring.
  rewrite (gate_runs _ _ _ _ _ _ color) by done.
  pose proof (buildPaths_match root name e Hparts) as Hp. rewrite Henc in Hp.
  pose proof (portrait_of_string art _ Hactor (portrait_path_nonempty _ _ _)) as Hport.
  destruct (apply_art_complete cfg art color source Hring) as (after & Hafter & Hw).
  { unfold deriver_returns. by rewrite Hport, Hp. }
  pose proof (apply_art_portrait cfg art color _ _ source Hport Hp) as (Himg & Hsrc & Hrnd & _).
  rewrite Hafter in Himg, Hsrc, Hrnd. cbn [fst] in Himg, Hsrc, Hrnd.
  destruct (mode_row_chosen (tokenMode cfg) (portrait_path root name e)
              {| wildcardSrc := VStr (root ++ str "/tokens/" ++ enc ++ str "*" ++ DOT :: e);
                 circleSrc := VStr (root ++ str "/circle/" ++ name ++ DOT :: e);
                 ext := VStr (DOT :: e) |}) as [Hch Hrings].
  { cbn [wildcardSrc]. apply truthy_nonempty, str_nonempty_mid. }
  { cbn [circleSrc]. apply truthy_nonempty, str_nonempty_mid. }
  rewrite Hch in Hsrc, Hrnd. cbn [fst snd wildcardSrc circleSrc] in Hsrc, Hrnd.
  destruct Hw as (Hen & _). rewrite Hrings in Hen.
  exists after. split; [done|]. split; [exact Himg|]. split; [|by split].
  rewrite Hsrc. unfold row_path. by destruct (mode_row (tokenMode cfg)).1.1.
Qed.

Lemma mode_table_witness :
  ∃ after,
    applyCompendiumArt ex_host ex_state (ex_settings TOKEN_MODE.PORTRAIT_RINGS) ex_pack
      (ex_art (portrait_path (str "modules/art") (str "Cult Adept") (str "webp")))
      (ex_source None) = (after, Normal tt) ∧
    img after = VStr (portrait_path (str "modules/art") (str "Cult Adept") (str "webp")) ∧
    src (texture_of after) =
      VStr (row_path (mode_row (VStr TOKEN_MODE.PORTRAIT_RINGS)).1.1
              (str "modules/art") (str "Cult Adept") (str "Cult%20Adept") (str "webp")) ∧
    randomImg (token_of after) = VBool (mode_row (VStr TOKEN_MODE.PORTRAIT_RINGS)).1.2 ∧
    enabled (ring_of after) = VBool (mode_row (VStr TOKEN_MODE.PORTRAIT_RINGS)).2.
Proof.
  apply (mode_table ex_host ex_state (ex_settings TOKEN_MODE.PORTRAIT_RINGS)
           ex_pack _ _ _ _ _ _ (VStr (str "#8f0000")));
    [solve_gate|reflexivity|solve_parts|reflexivity|reflexivity|reflexivity|reflexivity].
Defined.

Ltac hook_cases art :=
  let a := fresh "a" in let p := fresh "p" in let err := fresh "err" in
  let Hport := fresh "Hport" in let Hp := fresh "Hp" in
  unfold apply_art;
  destruct (portrait_of art) as [a|] eqn:Hport;
  [ destruct (buildPathsFromActorImg a) as [p|err] eqn:Hp;
    [ rewrite !(apply_portrait_present _ art a p) by done
    | rewrite !(apply_portrait_throws _ art a err) by done ]
  | rewrite !(apply_portrait_absent _ art) by done ].

(** How the writes complete, and that they keep the name. *)
Lemma apply_art_outcome cfg art color source :
  (apply_art cfg art color source).2 =
  (if negb (deriver_returns art) then Throw URIError
   else if ring_complete source then Normal tt
   else Throw TypeError) ∧
  name (apply_art cfg art color source).1 = name source.
Proof.
  unfold deriver_returns. hook_cases art.
  - split_source source; hook_cbv; by split.
  - apply buildPaths_throws_URIError in Hp as ->.
    split_source source; hook_cbv; by split.
  - split_source source; hook_cbv; by split.
Qed.

Lemma apply_art_idempotent cfg art color source :
  apply_art cfg art color (apply_art cfg art color source).1 =
  apply_art cfg art color source.
Proof. hook_cases art; split_source source; hook_cbv; reflexivity. Qed.

(** The callback by cases: gate, name, ring colour, then the writes. *)
Lemma handler_cases h st cfg pack art source :
  applyCompendiumArt h st cfg pack art source =
  if MAPPING_DATA_LOADED st && Set_has (SUPPORTED_PACKS st) (packIdOf pack) then
    if name_converts source then
      match ringColorOf h cfg with
      | Normal color => apply_art cfg art color source
      | Throw e => (source, Throw e)
      end
    else (source, Throw TypeError)
  else (source, template h [packIdOf pack]).
Proof.
  rewrite handler_run. destruct (MAPPING_DATA_LOADED st); [|reflexivity]. cbn [andb].
  destruct (Set_has _ _) eqn:Hs; [|reflexivity].
  apply Set_has_true in Hs as (id & Hid & _). by rewrite process_run by (by rewrite Hid).
Qed.

(** X8.  How the handler completes past its gate, in the order it meets
    the causes: with a TypeError when the name of the document does not
    convert to a string (line 208); otherwise with a TypeError when the
    ring colour setting has no CSS form and does not convert to a string
    (line 217); otherwise with a URIError exactly when the deriver
    throws on the portrait; otherwise with a TypeError exactly when the
    ring of the document lacks its colors or its subject; and normally
    in every other case. *)
Theorem handler_outcome h st cfg pack art source :
  pack_supported st pack →
  (applyCompendiumArt h st cfg pack art source).2 = outcome h cfg art source.
Proof.
  intros [Hl Hin]. rewrite handler_cases, Hl.
  apply Set_has_true in Hin. rewrite Hin. cbn [andb]. unfold outcome.
  destruct (name_converts source); [|reflexivity]. cbn [negb].
  destruct (ringColorOf h cfg) as [color|e] eqn:Hcolor.
  - apply apply_art_outcome.
  - by apply ringColorOf_throws in Hcolor as ->.
Qed.

Lemma handler_outcome_witness :
  (applyCompendiumArt ex_host ex_state (ex_settings TOKEN_MODE.CIRCLE) ex_pack
     (ex_art (str "img/bear.png")) (ex_source (Some (ex_ring None None)))).2 =
  outcome ex_host (ex_settings TOKEN_MODE.CIRCLE) (ex_art (str "img/bear.png"))
    (ex_source (Some (ex_ring None None))).
Proof. apply handler_outcome. solve_gate. Defined.

(** X9.  Running the handler again on the document it left behind
    changes nothing and completes the same way, thrown errors
    included. *)
Theorem handler_idempotent h st cfg pack art source :
  applyCompendiumArt h st cfg pack art
    (applyCompendiumArt h st cfg pack art source).1 =
  applyCompendiumArt h st cfg pack art source.
Proof.
  rewrite (handler_cases _ _ _ _ _ source).
  destruct (MAPPING_DATA_LOADED st && Set_has _ _) eqn:Hgate;
    [|cbn [fst]; by rewrite handler_cases, Hgate].
  destruct (name_converts source) eqn:Hname;
    [|cbn [fst]; by rewrite handler_cases, Hgate, Hname].
  destruct (ringColorOf h cfg) as [color|e] eqn:Hcolor;
    [|cbn [fst]; by rewrite handler_cases, Hgate, Hname, Hcolor].
  rewrite handler_cases, Hgate, Hcolor. unfold name_converts in *.
  rewrite (proj2 (apply_art_outcome cfg art color source)), Hname.
  apply apply_art_idempotent.
Qed.

(** X10.  The handler never changes the name of the document; and past
    the gate, when the name converts to a string and the ring colour
    setting normalises, it always leaves a document that has a
    prototypeToken with a texture and a ring, also when it throws in its
    portrait or ring step. *)
Theorem handler_ensures_structure h st cfg pack art source :
  let after := (applyCompendiumArt h st cfg pack art source).1 in
  name after = name source ∧
  (pack_supported st pack → name_converts source = true →
   (∃ color, ringColorOf h cfg = Normal color) →
   is_Some (prototypeToken after) ∧
   is_Some (texture (token_of after)) ∧
   is_Some (ring (token_of after))).
Proof.
  cbv zeta. split.
  - rewrite handler_cases.
    destruct (MAPPING_DATA_LOADED st && Set_has _ _); [|reflexivity].
    destruct (name_converts source); [|reflexivity].
    destruct (ringColorOf h cfg) as [color|e]; [|reflexivity].
    apply apply_art_outcome.
  - intros Hgate Hname [color Hcolor]. rewrite (gate_runs _ _ _ _ _ _ color) by done.
    hook_cases art; split_source source; hook_cbv; cbv [fst]; repeat split; eauto.
Qed.

Lemma handler_ensures_structure_witness :
  let source := {| name := VStr (str "Bear"); img := VUndefined; prototypeToken := None |} in
  let after := (applyCompendiumArt ex_host ex_state (ex_settings TOKEN_MODE.CIRCLE) ex_pack
                  (VObj []) source).1 in
  is_Some (prototypeToken after) ∧
  is_Some (texture (token_of after)) ∧
  is_Some (ring (token_of after)).
Proof.
  cbv zeta.
  refine (proj2 (handler_ensures_structure ex_host ex_state (ex_settings TOKEN_MODE.CIRCLE)
                   ex_pack (VObj []) _) _ _ _).
  - solve_gate.
  - reflexivity.
  - eexists. reflexivity.
Defined.

(** X11.  Past the gate, when the name of the document converts to a
    string and the ring colour setting normalises, a non-empty string
    under art.actor always becomes the document image, also when the
    deriver then throws; and unless it throws, width, height and texture
    fit are set from the settings, whatever happens in the ring step. *)
Theorem portrait_becomes_image h st cfg pack art source a color :
  pack_supported st pack →
  opt_get art "actor" = VStr a → a ≠ [] →
  name_converts source = true →
  ringColorOf h cfg = Normal color →
  let after := applyCompendiumArt h st cfg pack art source in
  img after.1 = VStr a ∧
  (after.2 ≠ Throw URIError →
   width (token_of after.1) = tokenWidth cfg ∧
   height (token_of after.1) = tokenHeight cfg ∧
   fit (texture_of after.1) = imageFitMode cfg).
Proof.
  intros Hgate Hactor Hne Hname Hcolor. rewrite (gate_runs _ _ _ _ _ _ color) by done.
  cbv zeta.
  pose proof (portrait_of_string art a Hactor Hne) as Hport.
  destruct (buildPathsFromActorImg a) as [p|err] eqn:Hp.
  - destruct (apply_art_portrait cfg art color a p source Hport Hp)
      as (Hi & _ & _ & Hw & Hh & Hf).
    done.
  - apply buildPaths_throws_URIError in Hp as Hp'. subst err.
    unfold apply_art. rewrite (apply_portrait_throws cfg art a URIError) by done.
    split_source source; hook_cbv; cbv [fst snd]; by split.
Qed.

Lemma portrait_becomes_image_witness :
  let after := applyCompendiumArt ex_host ex_state (ex_settings TOKEN_MODE.CIRCLE) ex_pack
                 (ex_art (portrait_path (str "modules/art") [55357%N] (str "webp")))
                 (ex_source None) in
  img after.1 = VStr (portrait_path (str "modules/art") [55357%N] (str "webp")) ∧
  (after.2 ≠ Throw URIError →
   width (token_of after.1) = VNum 1 ∧
   height (token_of after.1) = VNum 1 ∧
   fit (texture_of after.1) = VStr (str "contain")).
Proof.
  apply (portrait_becomes_image ex_host ex_state (ex_settings TOKEN_MODE.CIRCLE)
           ex_pack _ _ _ (VStr (str "#8f0000")));
    [solve_gate|reflexivity|intros H; vm_compute in H; discriminate H
    |reflexivity|reflexivity].
Defined.

(** X12.  A pack whose identifier is not a string (neither metadata.id
    nor collection holds one) is never processed, whatever the cache
    holds: the document is left as it was.  The handler then completes
    normally, unless the identifier is an object with an own toString
    property, on which the literal of its debug call throws a
    TypeError. *)
Theorem unidentified_pack_ignored h st cfg pack art source :
  is_string (packIdOf pack) = false →
  applyCompendiumArt h st cfg pack art source =
  (source, if convertible (packIdOf pack) then Normal tt else Throw TypeError).
Proof.
  intros Hid. rewrite gate_closed.
  - rewrite template_convertible. cbn [forallb]. by rewrite andb_true_r.
  - intros [_ (id & Heq & _)]. by rewrite Heq in Hid.
Qed.

Lemma unidentified_pack_ignored_witness :
  applyCompendiumArt ex_host ex_state (ex_settings TOKEN_MODE.CIRCLE)
    (VObj [(str "metadata", VObj [(str "id", ex_unprintable)])])
    (ex_art (str "img/bear.png")) (ex_source None) =
  (ex_source None,
   if convertible (packIdOf (VObj [(str "metadata", VObj [(str "id", ex_unprintable)])]))
   then Normal tt else Throw TypeError).
Proof. apply unidentified_pack_ignored. reflexivity. Defined.

(** X19.  When the actor field of the art descriptor is absent, not a
    string, or the empty string, the handler leaves source.img,
    prototypeToken.texture.src, prototypeToken.texture.fit,
    prototypeToken.randomImg, prototypeToken.width and
    prototypeToken.height reading as before, on every pack and every
    document, however it completes. *)
Theorem no_portrait_frame h st cfg pack art source :
  is_string (opt_get art "actor") = false ∨ opt_get art "actor" = VStr [] →
  let after := (applyCompendiumArt h st cfg pack art source).1 in
  img after = img source ∧
  src (texture_of after) = src (texture_of source) ∧
  fit (texture_of after) = fit (texture_of source) ∧
  randomImg (token_of after) = randomImg (token_of source) ∧
  width (token_of after) = width (token_of source) ∧
  height (token_of after) = height (token_of source).
Proof.
  intros Hnone%not_portrait. cbv zeta. rewrite handler_cases.
  destruct (MAPPING_DATA_LOADED st && Set_has _ _); [|done].
  destruct (name_converts source); [|done].
  destruct (ringColorOf h cfg) as [color|e]; [|done].
  by apply apply_art_no_portrait.
Qed.

Lemma no_portrait_frame_witness :
  let source := ex_source (Some (ex_ring (Some ex_colors) None)) in
  let after := (applyCompendiumArt ex_host ex_state (ex_settings TOKEN_MODE.CIRCLE_RINGS)
                  ex_pack (ex_art []) source).1 in
  img after = img source ∧
  src (texture_of after) = src (texture_of source) ∧
  fit (texture_of after) = fit (texture_of source) ∧
  randomImg (token_of after) = randomImg (token_of source) ∧
  width (token_of after) = width (token_of source) ∧
  height (token_of after) = height (token_of source).
Proof.
  apply (no_portrait_frame ex_host ex_state (ex_settings TOKEN_MODE.CIRCLE_RINGS)).
  right. reflexivity.
Defined.

(** ** More on the preloader *)

(** X13.  One pass of the preload loop never throws, never removes a
    pack from the cache and never touches the loaded flag. *)
Theorem load_mapping_grows fetch config st :
  let after := load_mapping fetch config st in
  after.2 = Normal tt ∧
  SUPPORTED_PACKS st ⊆ SUPPORTED_PACKS after.1 ∧
  MAPPING_DATA_LOADED after.1 = MAPPING_DATA_LOADED st.
Proof.
  cbv zeta. rewrite load_mapping_spec. cbn [fst snd SUPPORTED_PACKS MAPPING_DATA_LOADED].
  split; [done|]. split; [|done]. apply union_subseteq_r.
Qed.

(** X14.  One pass of the preload loop leaves the cache exactly as it
    was when the entry has no usable mapping path (missing, not a string,
    empty), when the request is rejected or answered with a non-ok
    status, when the body does not parse, and when the body is null, a
    boolean or a number. *)
Theorem load_mapping_skips fetch config st :
  nothing_to_load fetch config →
  load_mapping fetch config st = (st, Normal tt).
Proof.
  unfold nothing_to_load. cbv zeta. intros H. rewrite load_mapping_spec.
  assert (keys_of_mapping fetch config = ∅) as ->.
  { unfold keys_of_mapping.
    destruct (opt_get config "mapping") as [| |b|x|url|props]; try reflexivity.
    case_bool_decide; [reflexivity|].
    destruct H as [H|[H|H]]; [done|congruence|].
    destruct (fetch (VStr url)) as [r|]; [|reflexivity].
    destruct H as [->|H]; [reflexivity|].
    destruct (ok r); [|reflexivity].
    destruct (json r) as [[| | | | |]|]; try reflexivity; done. }
  destruct st. cbn [SUPPORTED_PACKS MAPPING_DATA_LOADED].
  by rewrite (left_id_L ∅ (∪)).
Qed.

Lemma load_mapping_skips_witness :
  load_mapping ex_network (VObj [(str "mapping", VNum 7)]) ex_state = (ex_state, Normal tt).
Proof. apply load_mapping_skips. left. reflexivity. Defined.

Lemma elem_of_supported_union fetch module id :
  id ∈ supported_union fetch module ↔
  ∃ entry, entry ∈ configured module ∧ id ∈ keys_of_mapping fetch entry.2.
Proof.
  unfold supported_union. rewrite elem_of_union_list. split.
  - intros (X & HX & Hid). apply list_elem_of_In, in_map_iff in HX as (entry & <- & Hin).
    exists entry. split; [by apply list_elem_of_In|done].
  - intros (entry & Hin & Hid). exists (keys_of_mapping fetch entry.2). split; [|done].
    apply list_elem_of_In, in_map_iff. exists entry. split; [done|by apply list_elem_of_In].
Qed.

(** X15.  After a preload, whatever the cache was before, the handler
    goes past its gate exactly when the identifier of the pack is a
    string among the keys of a mapping file that loaded; on every other
    pack it leaves the document untouched, and completes as the
    conversion of the identifier to a string does. *)
Theorem processed_iff_mapped fetch module st0 h cfg pack art source :
  let st := (preloadMappingData fetch module st0).1 in
  let mapped :=
    ∃ id entry, packIdOf pack = VStr id ∧ entry ∈ configured module ∧
                id ∈ keys_of_mapping fetch entry.2 in
  (mapped →
   applyCompendiumArt h st cfg pack art source =
   process h cfg (packIdOf pack) art source) ∧
  (¬ mapped →
   applyCompendiumArt h st cfg pack art source =
   (source, if convertible (packIdOf pack) then Normal tt else Throw TypeError)).
Proof.
  cbv zeta. rewrite preload_spec. cbn [fst].
  assert (pack_supported
            {| SUPPORTED_PACKS := supported_union fetch module; MAPPING_DATA_LOADED := true |}
            pack ↔
          ∃ id entry, packIdOf pack = VStr id ∧ entry ∈ configured module ∧
                      id ∈ keys_of_mapping fetch entry.2) as Hiff.
  { unfold pack_supported. cbn [SUPPORTED_PACKS MAPPING_DATA_LOADED]. split.
    - intros (_ & id & Hid & Hin). apply elem_of_supported_union in Hin as (entry & ? & ?).
      by exists id, entry.
    - intros (id & entry & Hid & Hin & Hkeys). split; [done|]. exists id. split; [done|].
      apply elem_of_supported_union. by exists entry. }
  split.
  - intros Hm. rewrite gate_open; [done|]. by apply Hiff.
  - intros Hm. rewrite gate_closed.
    + rewrite template_convertible. cbn [forallb]. by rewrite andb_true_r.
    + intros Hs. by apply Hm, Hiff.
Qed.

(** X16.  The outcome of a preload depends neither on the order in
    which the manifest lists the systems nor on the cache before it. *)
Theorem preload_order_independent fetch module module' st st' :
  configured module ≡ₚ configured module' →
  preloadMappingData fetch module st = preloadMappingData fetch module' st'.
Proof.
  intros Hperm. rewrite !preload_spec. f_equal. f_equal.
  apply set_eq. intros id. rewrite !elem_of_supported_union.
  split; intros (entry & Hin & Hid); exists entry; split; try done.
  - by rewrite <- Hperm.
  - by rewrite Hperm.
Qed.

Lemma preload_order_independent_witness :
  preloadMappingData ex_network
    (two_systems (str "a") (str "b")
       (str "modules/art-for-daggerheart/map-gone.json")
       (str "modules/art-for-daggerheart/map-daggerheart.json")) initial_state =
  preloadMappingData ex_network
    (two_systems (str "b") (str "a")
       (str "modules/art-for-daggerheart/map-daggerheart.json")
       (str "modules/art-for-daggerheart/map-gone.json")) ex_state.
Proof. apply preload_order_independent. apply perm_swap. Defined.

(** ** The ready hook *)

(** X17.  The ready hook completes normally whether or not the host
    lets the core auto-rotate setting be written: the cache is loaded
    either way, and the host is asked once, with the module's own
    tokenAutoRotate value. *)
Theorem ready_completes {H} fetch module cfg (settings_set_core : value → M H unit) st hs :
  ready fetch module cfg settings_set_core (st, hs) =
  (({| SUPPORTED_PACKS := supported_union fetch module; MAPPING_DATA_LOADED := true |},
    (settings_set_core (tokenAutoRotate cfg) hs).1), Normal tt).
Proof.
  unfold ready, bind, in_module, in_host, try_catch, ret. cbn [fst snd].
  rewrite preload_spec. cbn [fst snd].
  by destruct (settings_set_core (tokenAutoRotate cfg) hs) as [hs' [[]|err]].
Qed.

Lemma ready_completes_witness :
  ready ex_network (VObj []) (ex_settings TOKEN_MODE.CIRCLE) ex_locked_core
    (initial_state, VBool true) =
  (({| SUPPORTED_PACKS := supported_union ex_network (VObj []);
       MAPPING_DATA_LOADED := true |},
    (ex_locked_core (tokenAutoRotate (ex_settings TOKEN_MODE.CIRCLE)) (VBool true)).1),
   Normal tt).
Proof. apply ready_completes. Defined.

(** ** The registry *)

Ltac solve_choice :=
  first [ exact I
        | eexists; split; [reflexivity|]; vm_compute; set_solver ].

(** X18.  The registry is consistent: no key is registered twice,
    every option is shown in the configuration form, every option with a
    table of choices defaults to one of them, and the choices of
    tokenMode are exactly the five modes the handler tests for. *)
Theorem registry_consistent :
  NoDup (map reg_key registered) ∧
  Forall (fun r => Setting.config (reg_data r) = true ∧
                   default_is_choice (reg_data r)) registered ∧
  (choice_keys <$> setting_of (str "tokenMode")) = Some (Some token_modes).
Proof.
  split; [|split].
  - apply (bool_decide_unpack _). by vm_compute.
  - cbv [registered registerSettings settings_register bind modify fst app].
    repeat (apply Forall_cons; split; [split; [reflexivity|]|]); try constructor.
    all: unfold default_is_choice; cbn [choice_keys Setting.choices reg_data fmap option_fmap option_map Setting.default].
    all: solve_choice.
  - by vm_compute.
Qed.
